(** * hdhr-dvr: recording scheduler, capture worker and range-aware file server

    A shallow embedding of [app.go]: the SQLite store as two tables, the
    scheduler tick and the startup pass as functions on the store, the capture
    worker as a function of the external process's outcome, and the two HTTP
    handlers [getRecordingFile] and [createRecording] as functions from a
    request and the store to a response. *)

From Stdlib Require Import ZArith List String Ascii Bool Lia.
Import ListNotations.

Local Open Scope string_scope.
Local Open Scope Z_scope.

(** ** Go library functions the handlers call *)

Module GoStrings.

(** [strings.Split(s, sep)] for a one-byte separator: the fields between the
    occurrences of [sep]; a string without [sep] is its own single field. *)
Fixpoint Split (sep : ascii) (s : string) : list string :=
  match s with
  | EmptyString => [EmptyString]
  | String c rest =>
      if Ascii.eqb c sep then EmptyString :: Split sep rest
      else match Split sep rest with
           | [] => [String c EmptyString]
           | f :: fs => String c f :: fs
           end
  end.

(** Occurrence of a byte in a string. *)
Fixpoint contains (c : ascii) (s : string) : bool :=
  match s with
  | EmptyString => false
  | String d rest => Ascii.eqb d c || contains c rest
  end.

Definition isDigit (c : ascii) : bool :=
  (48 <=? Z.of_nat (nat_of_ascii c)) && (Z.of_nat (nat_of_ascii c) <=? 57).

Definition digitVal (c : ascii) : Z := Z.of_nat (nat_of_ascii c) - 48.

Fixpoint allDigits (s : string) : bool :=
  match s with
  | EmptyString => true
  | String c rest => isDigit c && allDigits rest
  end.

(** The digit loop of [strconv.ParseUint] in base 10, on unbounded integers:
    the range check is made on the result. *)
Fixpoint parseDigits (s : string) (acc : Z) : option Z :=
  match s with
  | EmptyString => Some acc
  | String c rest =>
      if isDigit c then parseDigits rest (10 * acc + digitVal c) else None
  end.

Definition int64_min : Z := - 2 ^ 63.
Definition int64_max : Z := 2 ^ 63 - 1.

(** [strconv.ParseInt(s, 10, 64)]: an optional sign, at least one digit,
    digits only, and a value in the int64 range; [None] is a non-nil error. *)
Definition ParseInt (s : string) : option Z :=
  match s with
  | EmptyString => None
  | String c rest =>
      let neg := Ascii.eqb c "-" in
      let body := if Ascii.eqb c "+" || neg then rest else s in
      match body with
      | EmptyString => None
      | _ =>
          match parseDigits body 0 with
          | None => None
          | Some un =>
              if neg then (if un <=? 2 ^ 63 then Some (- un) else None)
              else (if un <? 2 ^ 63 then Some un else None)
          end
      end
  end.

(** [strconv.Atoi] on a 64-bit platform. *)
Definition Atoi (s : string) : option Z := ParseInt s.

Definition digitChar (d : Z) : ascii := ascii_of_nat (Z.to_nat (48 + d)).

(** The digit loop of [strconv.FormatInt]: digits are produced from the least
    significant one, in front of what is already there.  An int64 has at most
    19 digits. *)
Fixpoint formatUint (fuel : nat) (n : Z) (acc : string) : string :=
  match fuel with
  | O => acc
  | S k =>
      let acc' := String (digitChar (n mod 10)) acc in
      if n <? 10 then acc' else formatUint k (n / 10) acc'
  end.

(** [strconv.FormatInt(n, 10)], which is also what [%d] prints. *)
Definition FormatInt (n : Z) : string :=
  if n <? 0 then String "-" (formatUint 20 (- n) "") else formatUint 20 n "".

(** Wrap-around of Go's 64-bit [int] and [int64] arithmetic. *)
Definition wrap64 (x : Z) : Z := (x + 2 ^ 63) mod 2 ^ 64 - 2 ^ 63.

End GoStrings.
Import GoStrings.


(** Instants are nanoseconds since the Unix epoch, durations are int64
    nanoseconds, as in Go's [time] package. *)
Module GoTime.

Definition Minute : Z := 60 * 1000000000.

(** [t.After(u)], [t.Before(u)] and [t.Add(d)]. *)
Definition After (t u : Z) : bool := u <? t.
Definition Before (t u : Z) : bool := t <? u.
Definition Add (t d : Z) : Z := t + d.

End GoTime.
Import GoTime.

(** ** The store: the two tables of [createTables]

    The tables are lists of rows in rowid order; every statement is taken to
    succeed, and the columns hold the Go values the program put in. *)

(** A row of [channels(guide_number PRIMARY KEY, guide_name, url)]. *)
Record Channel : Set := mkChannel {
  GuideNumber : string;
  GuideName : string;
  URL : string
}.

(** A row of [recordings]; [created_at] is never read back. *)
Record Recording : Set := mkRecording {
  ID : Z;
  ChannelID : string;
  Date : string;
  StartTime : string;
  Duration : Z;
  Status : string
}.

(** [seq] is the counter SQLite keeps for an AUTOINCREMENT key: the largest
    id the table has ever held. *)
Record DB : Set := mkDB {
  channels : list Channel;
  recordings : list Recording;
  seq : Z
}.

Module Store.

(** The database after [createTables] on a new file. *)
Definition empty : DB := mkDB [] [] 0.

(** [SELECT ... FROM channels WHERE guide_number = ?] *)
Definition findChannel (d : DB) (guideNumber : string) : option Channel :=
  find (fun c => String.eqb (GuideNumber c) guideNumber) (channels d).

(** [SELECT EXISTS(SELECT 1 FROM channels WHERE guide_number = ?)] *)
Definition channelExists (d : DB) (guideNumber : string) : bool :=
  existsb (fun c => String.eqb (GuideNumber c) guideNumber) (channels d).

(** [INSERT OR IGNORE INTO channels ...]: an existing key wins. *)
Definition insertChannelOrIgnore (d : DB) (c : Channel) : DB :=
  if channelExists d (GuideNumber c) then d
  else mkDB (channels d ++ [c]) (recordings d) (seq d).

(** [SELECT ... FROM recordings WHERE status = 'pending'], in rowid order. *)
Definition selectPending (d : DB) : list Recording :=
  filter (fun r => String.eqb (Status r) "pending") (recordings d).

(** [SELECT ... FROM recordings r WHERE r.id = ?] *)
Definition findRecording (d : DB) (id : Z) : option Recording :=
  find (fun r => ID r =? id) (recordings d).

Definition maxID (rows : list Recording) : Z :=
  fold_right (fun r m => Z.max (ID r) m) 0 rows.

(** The id an AUTOINCREMENT insert picks: one more than the largest id that
    has ever been in the table. *)
Definition nextID (d : DB) : Z := Z.max (seq d) (maxID (recordings d)) + 1.

(** [INSERT INTO recordings (channel_id, date, start_time, duration, status)
    VALUES (?, ?, ?, ?, ?)] with [LastInsertId]. *)
Definition insertRecording (d : DB) (channelID date startTime : string)
    (duration : Z) (st : string) : DB * Z :=
  let id := nextID d in
  (mkDB (channels d)
        (recordings d ++ [mkRecording id channelID date startTime duration st])
        id,
   id).

Definition setStatus (st : string) (r : Recording) : Recording :=
  mkRecording (ID r) (ChannelID r) (Date r) (StartTime r) (Duration r) st.

(** [UPDATE recordings SET status = 'completed' WHERE id = ?] *)
Definition updateCompleted (d : DB) (id : Z) : DB :=
  mkDB (channels d)
       (map (fun r => if ID r =? id then setStatus "completed" r else r)
            (recordings d))
       (seq d).

(** [DELETE FROM recordings WHERE id = ?] *)
Definition deleteByID (d : DB) (id : Z) : DB :=
  mkDB (channels d)
       (filter (fun r => negb (ID r =? id)) (recordings d))
       (seq d).

(** The stored status of job [id], if the job exists. *)
Definition statusOf (d : DB) (id : Z) : option string :=
  option_map Status (findRecording d id).

(** The foreign key of the schema: every job's channel is in [channels]. *)
Definition foreignKeyOK (d : DB) : Prop :=
  forall r, In r (recordings d) -> channelExists d (ChannelID r) = true.

End Store.
Import Store.

(** ** The process: store, signalling channel, running capture workers *)

(** [workers] are the [go startRecording(r)] goroutines that have been
    spawned and have not returned; [recordingCh] is the buffered channel. *)
Record State : Set := mkState {
  db : DB;
  recordingCh : list Recording;
  workers : list Recording
}.

Definition recordingChCap : nat := 100.

(** What [cmd.Run()] reports. *)
Inductive CaptureOutcome : Set := CleanExit | NonZeroExit | CannotStart.

(** What [os.Stat] followed by [os.Open] finds at a path. *)
Inductive FileState : Set :=
| NotExist
| StatError
| OpenError
| Regular (content : list Byte.byte).

(** The environment of the process at the time of a call. *)
Record World : Type := mkWorld {
  STORAGE_DIR : string;
  MkdirAll : string -> bool;
  Create : string -> bool;
  ffmpeg : list string -> CaptureOutcome;
  Stat : string -> FileState
}.

(** ** HTTP responses *)

(** What a handler writes as the body: [Plain text] is the line [text] that
    [http.Error] prints, [GoError] the text of a library error, [Bytes] what
    [io.Copy] streams. *)
Inductive Body : Set :=
| Plain (text : string)
| GoError
| JsonError (message : string)
| JsonRecording (r : Recording)
| Bytes (content : list Byte.byte)
| NoBody.

Record Response : Set := mkResponse {
  status : Z;
  headers : list (string * string);
  body : Body
}.

(** [http.Error(w, msg, code)] *)
Definition httpError (msg : Body) (code : Z) : Response :=
  mkResponse code
    [("Content-Type", "text/plain; charset=utf-8");
     ("X-Content-Type-Options", "nosniff")]
    msg.

Definition jsonError (msg : string) (code : Z) : Response :=
  mkResponse code [("Content-Type", "application/json")] (JsonError msg).

(** The decoded JSON body of [POST /api/recordings]. *)
Module Req.
Record RecordingRequest : Set := mk {
  ChannelID : string;
  Date : string;
  StartTime : string;
  Duration : Z
}.
End Req.

(** ** The program *)

Section App.

(** [time.ParseInLocation("2006-01-02 15:04", s, loc)] for the location the
    process runs with; [None] is a parse error. *)
Variable ParseInLocation : string -> option Z.

(** [filepath.Join(dir, name)] and [filepath.Base(path)] *)
Variable Join : string -> string -> string.
Variable Base : string -> string.

(** *** Scheduler *)

(** The start instant of a job: [fmt.Sprintf("%s %s", r.Date, r.StartTime)]
    parsed in the process's location. *)
Definition startInstant (r : Recording) : option Z :=
  ParseInLocation (Date r ++ " " ++ StartTime r).

(** The second loop of a tick ([for _, r := range recordings]): the jobs
    handed to [go startRecording(r)], in order. *)
Fixpoint dispatch (now : Z) (rows : list Recording) : list Recording :=
  match rows with
  | [] => []
  | r :: rest =>
      match startInstant r with
      | None => dispatch now rest
      | Some startTime =>
          if After now startTime && Before now (Add startTime (1 * Minute))
          then r :: dispatch now rest
          else dispatch now rest
      end
  end.

(** One [case <-ticker.C] of [startRecordingScheduler]: the pending rows are
    read, the due ones get a goroutine each.  Nothing is written. *)
Definition tick (now : Z) (s : State) : State :=
  let pending := selectPending (db s) in
  mkState (db s) (recordingCh s) (workers s ++ dispatch now pending).

(** One [case <-recordingCh] of [startRecordingScheduler]: the value is
    received and dropped. *)
Definition recv (s : State) : State :=
  mkState (db s) (tl (recordingCh s)) (workers s).

(** [loadRecordings] runs in [main] before the scheduler goroutine exists, so
    nothing receives from [recordingCh] while it runs: a send on the full
    buffer never completes. *)
Inductive Startup : Set :=
| Returned (ch : list Recording)
| Blocked (ch : list Recording).

(** The loop of [loadRecordings] over the pending rows; [clock i] is what
    [time.Now()] reads in iteration [i]. *)
Fixpoint loadLoop (clock : nat -> Z) (i : nat) (rows : list Recording)
    (ch : list Recording) : Startup :=
  match rows with
  | [] => Returned ch
  | r :: rest =>
      match startInstant r with
      | None => loadLoop clock (S i) rest ch
      | Some startTime =>
          let endTime := Add startTime (wrap64 (Duration r * Minute)) in
          let now := clock i in
          if After now startTime && Before now endTime then
            loadLoop clock (S i) rest ch
          else if Before now startTime then
            if (List.length ch <? recordingChCap)%nat
            then loadLoop clock (S i) rest (ch ++ [r])
            else Blocked ch
          else
            loadLoop clock (S i) rest ch
      end
  end.

Definition loadRecordings (clock : nat -> Z) (s : State) : Startup :=
  loadLoop clock 0 (selectPending (db s)) (recordingCh s).

Definition startupChannel (u : Startup) : list Recording :=
  match u with Returned ch => ch | Blocked ch => ch end.

(** [loadChannels]: nothing is stored when the lineup cannot be fetched or
    decoded. *)
Definition loadChannels (lineup : option (list Channel)) (d : DB) : DB :=
  match lineup with
  | None => d
  | Some chs => fold_left insertChannelOrIgnore chs d
  end.

(** *** Capture worker *)

Inductive WorkerResult : Set :=
| ChannelNotFound
| MkdirFailed
| LogFileFailed
| CaptureFailed (cmd : list string)
| CaptureDone (cmd : list string).

(** [fmt.Sprintf("%s-%s-%s-%s.mp4", r.Date, r.StartTime, ch.GuideName,
    ch.GuideNumber)] joined to the storage directory, in [startRecording]. *)
Definition outputFile (w : World) (r : Recording) (ch : Channel) : string :=
  Join (STORAGE_DIR w)
       (Date r ++ "-" ++ StartTime r ++ "-" ++ GuideName ch ++ "-"
               ++ GuideNumber ch ++ ".mp4").

Definition logFile (r : Recording) : string :=
  Join "/tmp" ("ffmpeg-" ++ Date r ++ "-" ++ StartTime r ++ ".log").

Definition ffmpegArgs (w : World) (r : Recording) (ch : Channel) : list string :=
  let durationSeconds := wrap64 (Duration r * 60) in
  ["-i"; URL ch; "-t"; FormatInt durationSeconds; "-c"; "copy";
   outputFile w r ch].

(** [startRecording(r)], run to its return. *)
Definition startRecording (w : World) (r : Recording) (d : DB)
    : DB * WorkerResult :=
  match findChannel d (ChannelID r) with
  | None => (d, ChannelNotFound)
  | Some ch =>
      if negb (MkdirAll w (STORAGE_DIR w)) then (d, MkdirFailed)
      else if negb (Create w (logFile r)) then (d, LogFileFailed)
      else
        let cmd := ffmpegArgs w r ch in
        match ffmpeg w cmd with
        | CleanExit => (updateCompleted d (ID r), CaptureDone cmd)
        | NonZeroExit => (d, CaptureFailed cmd)
        | CannotStart => (d, CaptureFailed cmd)
        end
  end.

(** *** Media server *)

(** Outcome of the [QueryRow(...).Scan(...)] of [getRecordingFile]: the LEFT
    JOIN yields NULL for the name of a channel that is not in [channels], and
    NULL does not scan into a Go string. *)
Inductive FileQuery : Set :=
| NoRows
| ScanFailed
| Row (recording : Recording) (channelName : string).

Definition queryRecording (d : DB) (id : Z) : FileQuery :=
  match findRecording d id with
  | None => NoRows
  | Some r =>
      match findChannel d (ChannelID r) with
      | None => ScanFailed
      | Some c => Row r (GuideName c)
      end
  end.

(** [fmt.Sprintf("%s-%s-%s-%s.mp4", recording.Date, recording.StartTime,
    channelName, recording.ChannelID)] joined to the storage directory, in
    [getRecordingFile]. *)
Definition filePath (w : World) (recording : Recording) (channelName : string)
    : string :=
  Join (STORAGE_DIR w)
       (Date recording ++ "-" ++ StartTime recording ++ "-" ++ channelName
               ++ "-" ++ ChannelID recording ++ ".mp4").

(** The [if rangeHeader != ""] branch of [getRecordingFile]. *)
Definition serveRange (rangeHeader : string) (content : list Byte.byte)
    : Response :=
  let size := Z.of_nat (List.length content) in
  match Split "=" rangeHeader with
  | [p0; p1] =>
      if negb (String.eqb p0 "bytes") then
        httpError (Plain "Invalid range header") 400
      else
        let rangeValues := Split "-" p1 in
        if (List.length rangeValues <? 1)%nat || (2 <? List.length rangeValues)%nat then
          httpError (Plain "Invalid range header") 400
        else
          match ParseInt (nth 0 rangeValues "") with
          | None => httpError (Plain "Invalid range header") 400
          | Some start =>
              let parsedEnd :=
                if (List.length rangeValues =? 2)%nat
                   && negb (String.eqb (nth 1 rangeValues "") "")
                then ParseInt (nth 1 rangeValues "")
                else Some (size - 1) in
              match parsedEnd with
              | None => httpError (Plain "Invalid range header") 400
              | Some end_ =>
                  let fileSize := size in
                  if (start <? 0) || (fileSize <=? end_) || (end_ <? start) then
                    httpError (Plain "Invalid range") 416
                  else
                    mkResponse 206
                      [("Content-Range",
                        "bytes " ++ FormatInt start ++ "-" ++ FormatInt end_
                                 ++ "/" ++ FormatInt fileSize);
                       ("Content-Length", FormatInt (end_ - start + 1));
                       ("Accept-Ranges", "bytes")]
                      (Bytes (firstn (Z.to_nat (end_ - start + 1))
                                     (skipn (Z.to_nat start) content)))
              end
          end
  | _ => httpError (Plain "Invalid range header") 400
  end.

(** The full-file response of [getRecordingFile]. *)
Definition serveFull (path : string) (content : list Byte.byte) : Response :=
  let fileSize := Z.of_nat (List.length content) in
  mkResponse 200
    [("Content-Disposition", "attachment; filename=" ++ Base path);
     ("Content-Type", "video/mp4");
     ("Content-Length", FormatInt fileSize);
     ("Accept-Ranges", "bytes")]
    (Bytes content).

(** [getRecordingFile]: [idStr] is the [{id}] of the route, [rangeHeader] is
    [r.Header.Get("Range")], empty when the header is absent.  The response
    is what the handler writes to its [ResponseWriter]. *)
Definition getRecordingFile (w : World) (d : DB) (idStr rangeHeader : string)
    : Response :=
  match Atoi idStr with
  | None => httpError (Plain "Invalid recording ID") 400
  | Some id =>
      match queryRecording d id with
      | NoRows => httpError (Plain "Recording not found") 404
      | ScanFailed => httpError GoError 500
      | Row recording channelName =>
          if negb (String.eqb (Status recording) "completed") then
            httpError (Plain "Recording not completed") 403
          else
            let path := filePath w recording channelName in
            match Stat w path with
            | NotExist => httpError (Plain "Recording file not found") 404
            | StatError => httpError GoError 500
            | OpenError => httpError GoError 500
            | Regular content =>
                if negb (String.eqb rangeHeader "") then
                  serveRange rangeHeader content
                else
                  serveFull path content
            end
      end
  end.

(** *** Create and delete *)

Definition withID (id : Z) (r : Recording) : Recording :=
  mkRecording id (ChannelID r) (Date r) (StartTime r) (Duration r) (Status r).

(** [createRecording]: [body] is [None] when the JSON does not decode.  The
    scheduler goroutine is always ready to receive from [recordingCh], so the
    send at the end completes. *)
Definition createRecording (method : string)
    (body : option Req.RecordingRequest) (s : State) : State * Response :=
  if negb (String.eqb method "POST") then
    (s, httpError (Plain "Method not allowed") 405)
  else
    match body with
    | None => (s, httpError GoError 400)
    | Some req =>
        if Req.Duration req <=? 0 then
          (s, jsonError "Duration must be positive" 400)
        else if negb (channelExists (db s) (Req.ChannelID req)) then
          (s, jsonError "Channel not found" 404)
        else
          let recording :=
            mkRecording 0 (Req.ChannelID req) (Req.Date req)
                        (Req.StartTime req) (Req.Duration req) "pending" in
          let (d', id) :=
            insertRecording (db s) (ChannelID recording) (Date recording)
                            (StartTime recording) (Duration recording)
                            (Status recording) in
          let recording := withID id recording in
          (mkState d' (recordingCh s ++ [recording]) (workers s),
           mkResponse 201 [("Content-Type", "application/json")]
                      (JsonRecording recording))
    end.

(** [deleteRecording]: [idStr] is the path after ["/api/recordings/"]. *)
Definition deleteRecording (method idStr : string) (s : State)
    : State * Response :=
  if negb (String.eqb method "DELETE") then
    (s, httpError (Plain "Method not allowed") 405)
  else
    match Atoi idStr with
    | None => (s, httpError (Plain "Invalid recording ID") 400)
    | Some id =>
        (mkState (deleteByID (db s) id) (recordingCh s) (workers s),
         mkResponse 204 [] NoBody)
    end.

(** *** The process as a transition system *)

(** What can happen to the process.  [Restart] is [main] up to the start of
    the scheduler, on the database file the previous process left: the
    goroutines and the channel of the previous process are gone. *)
Inductive Event : Type :=
| Restart (lineup : option (list Channel)) (clock : nat -> Z)
| Tick (now : Z)
| Recv
| WorkerReturns (i : nat) (w : World)
| CreateRequest (method : string) (body : option Req.RecordingRequest)
| DeleteRequest (method idStr : string)
| FileRequest (w : World) (idStr rangeHeader : string).

Definition removeNth {A : Type} (i : nat) (l : list A) : list A :=
  firstn i l ++ skipn (S i) l.

Definition step (e : Event) (s : State) : State :=
  match e with
  | Restart lineup clock =>
      let d := loadChannels lineup (db s) in
      mkState d (startupChannel (loadRecordings clock (mkState d [] []))) []
  | Tick now => tick now s
  | Recv => recv s
  | WorkerReturns i w =>
      match nth_error (workers s) i with
      | None => s
      | Some r =>
          mkState (fst (startRecording w r (db s))) (recordingCh s)
                  (removeNth i (workers s))
      end
  | CreateRequest method body => fst (createRecording method body s)
  | DeleteRequest method idStr => fst (deleteRecording method idStr s)
  | FileRequest _ _ _ => s
  end.

Definition run (evs : list Event) (s : State) : State :=
  fold_left (fun s e => step e s) evs s.

End App.

(** The last step of [serveRange], for a range that has been read: the check
    against the file size and the partial response. *)
Definition rangeAnswer (A B : Z) (content : list Byte.byte) : Response :=
  if (A <? 0) || (Z.of_nat (List.length content) <=? B) || (B <? A)
  then httpError (Plain "Invalid range") 416
  else mkResponse 206
         [("Content-Range",
           "bytes " ++ FormatInt A ++ "-" ++ FormatInt B ++ "/"
                    ++ FormatInt (Z.of_nat (List.length content)));
          ("Content-Length", FormatInt (B - A + 1));
          ("Accept-Ranges", "bytes")]
         (Bytes (firstn (Z.to_nat (B - A + 1)) (skipn (Z.to_nat A) content))).

(** The events of the scheduler alone: its ticks, its receives, and the
    startup pass. *)
Definition schedulerEvent (e : Event) : bool :=
  match e with
  | Restart _ _ | Tick _ | Recv => true
  | _ => false
  end.

(** The statuses the program stores. *)
Definition storedStatuses (d : DB) : Prop :=
  forall r, In r (recordings d) ->
            Status r = "pending" \/ Status r = "completed".

(** How many running workers hold job [id]. *)
Definition launches (id : Z) (s : State) : nat :=
  List.length (filter (fun r => ID r =? id) (workers s)).

(** The process on a new database file. *)
Definition boot : State := mkState Store.empty [] [].

(** ** The library functions at the inputs of the examples *)

Module Concrete.

Definition twoDigits (a b : ascii) : option Z :=
  if isDigit a && isDigit b then Some (10 * digitVal a + digitVal b) else None.

Definition isLeap (y : Z) : bool :=
  (y mod 4 =? 0) && (negb (y mod 100 =? 0) || (y mod 400 =? 0)).

Definition daysIn (y m : Z) : Z :=
  if m =? 2 then (if isLeap y then 29 else 28)
  else if (m =? 4) || (m =? 6) || (m =? 9) || (m =? 11) then 30 else 31.

(** Days from 1970-01-01 to the civil date [y-m-d]. *)
Definition daysFromCivil (y m d : Z) : Z :=
  let y' := if m <=? 2 then y - 1 else y in
  let era := y' / 400 in
  let yoe := y' - era * 400 in
  let doy := (153 * ((m + 9) mod 12) + 2) / 5 + d - 1 in
  let doe := yoe * 365 + yoe / 4 - yoe / 100 + doy in
  era * 146097 + doe - 719468.

(** [time.ParseInLocation("2006-01-02 15:04", s, time.UTC)] on strings of the
    exact width [YYYY-MM-DD HH:MM]; UTC is the location the scheduler falls
    back to. *)
Definition parseUTC (s : string) : option Z :=
  match s with
  | String y1 (String y2 (String y3 (String y4 (String "-"
    (String m1 (String m2 (String "-" (String d1 (String d2 (String " "
    (String h1 (String h2 (String ":" (String n1 (String n2 EmptyString)
    )))))))))))))) =>
      match twoDigits y1 y2, twoDigits y3 y4, twoDigits m1 m2,
            twoDigits d1 d2, twoDigits h1 h2, twoDigits n1 n2 with
      | Some yh, Some yl, Some m, Some d, Some h, Some n =>
          let y := 100 * yh + yl in
          if (1 <=? m) && (m <=? 12) && (1 <=? d) && (d <=? daysIn y m)
             && (h <=? 23) && (n <=? 59)
          then Some (((daysFromCivil y m d * 24 + h) * 60 + n) * Minute)
          else None
      | _, _, _, _, _, _ => None
      end
  | _ => None
  end.

(** [filepath.Join] and [filepath.Base] on a clean directory and a name
    without separators. *)
Definition joinPlain (dir name : string) : string :=
  if String.eqb dir "" then name else dir ++ "/" ++ name.

Definition basePlain (path : string) : string :=
  last (Split "/" path) path.

End Concrete.

(** ** The contract of the media server, in the spec's words *)

Module Contract.

(** The number a run of decimal digits denotes. *)
Definition digitsValue (ds : string) : Z :=
  fold_left (fun acc c => 10 * acc + digitVal c) (list_ascii_of_string ds) 0.

(** A number as it may be written in a range: one or more decimal digits,
    with or without a ['+'] in front, denoting a value below [2^63]. *)
Definition literal (s : string) (n : Z) : Prop :=
  exists ds,
    (s = ds \/ s = String "+" ds) /\
    ds <> EmptyString /\ allDigits ds = true /\
    digitsValue ds = n /\ n < 2 ^ 63.

(** The forms [bytes=A-B] and [bytes=A-] of the spec. *)
Inductive SpecForm : string -> Z -> option Z -> Prop :=
| FormClosed (a b : string) (A B : Z) :
    literal a A -> literal b B ->
    SpecForm ("bytes=" ++ a ++ "-" ++ b) A (Some B)
| FormOpen (a : string) (A : Z) :
    literal a A -> SpecForm ("bytes=" ++ a ++ "-") A None.

(** The forms the parser reads: those of the spec and the form [bytes=A]
    without a dash. *)
Inductive RangeForm : string -> Z -> option Z -> Prop :=
| FormSpec (h : string) (A : Z) (B : option Z) :
    SpecForm h A B -> RangeForm h A B
| FormBare (a : string) (A : Z) :
    literal a A -> RangeForm ("bytes=" ++ a) A None.

(** The last byte asked for: [B], or the last byte of the file. *)
Definition lastByte (B : option Z) (fileSize : Z) : Z :=
  match B with Some b => b | None => fileSize - 1 end.

(** Bytes [A] through [B] of a file, one by one. *)
Definition window (A B : Z) (content : list Byte.byte) : list Byte.byte :=
  map (fun i => nth i content Byte.x00)
      (List.seq (Z.to_nat A) (Z.to_nat (B - A + 1))).

(** The 206 response of the spec for the window [A..B] of a file. *)
Definition partialContent (A B : Z) (content : list Byte.byte) : Response :=
  mkResponse 206
    [("Content-Range",
      "bytes " ++ FormatInt A ++ "-" ++ FormatInt B ++ "/"
               ++ FormatInt (Z.of_nat (List.length content)));
     ("Content-Length", FormatInt (B - A + 1));
     ("Accept-Ranges", "bytes")]
    (Bytes (window A B content)).

(** The file name of a capture:
    [<date>-<startTime>-<channelDisplayName>-<channelId>.mp4]. *)
Definition fileName (date startTime channelDisplayName channelId : string)
    : string :=
  date ++ "-" ++ startTime ++ "-" ++ channelDisplayName ++ "-" ++ channelId
       ++ ".mp4".

End Contract.
Import Contract.

(** ** The scheduler's window, as the code has it and as the spec words it *)

Module Window.

(** [now.After(start) && now.Before(start.Add(1*time.Minute))] *)
Definition open (start now : Z) : Prop := start < now < start + Minute.

(** The window [[start, start + 1 minute)] of the spec. *)
Definition halfOpen (start now : Z) : Prop := start <= now < start + Minute.

(** The whole window of a job has elapsed. *)
Definition elapsed (start duration now : Z) : Prop :=
  start + duration * Minute < now.

End Window.

(** ** A small installation, for the examples *)

Module Fixture.
Import Concrete.

Definition channel5 : Channel := mkChannel "5" "KQED" "http://hdhomerun.local:5004/auto/v5".

(** The job of the spec's scenario. *)
Definition job1 : Recording :=
  mkRecording 1 "5" "2026-01-01" "19:00" 30 "pending".

Definition request1 : Req.RecordingRequest :=
  Req.mk "5" "2026-01-01" "19:00" 30.

(** 2026-01-01 19:00 UTC. *)
Definition t0 : Z := 1767294000 * 1000000000.

Definition second : Z := 1000000000.

Definition db1 : DB := mkDB [channel5] [job1] 1.

Definition state1 : State := mkState db1 [] [].

Definition file10 : list Byte.byte :=
  [Byte.x00; Byte.x01; Byte.x02; Byte.x03; Byte.x04;
   Byte.x05; Byte.x06; Byte.x07; Byte.x08; Byte.x09].

Definition file1000 : list Byte.byte :=
  List.concat (repeat file10 100).

Definition path1 : string := "/data/2026-01-01-19:00-KQED-5.mp4".

(** A world in which the capture of [job1] exits as [outcome] and the
    storage directory holds [file] at the path of [job1]. *)
Definition world (outcome : CaptureOutcome) (file : FileState) : World :=
  mkWorld "/data" (fun _ => true) (fun _ => true) (fun _ => outcome)
          (fun p => if String.eqb p path1 then file else NotExist).

Definition job1done : Recording :=
  mkRecording 1 "5" "2026-01-01" "19:00" 30 "completed".

Definition db1done : DB := mkDB [channel5] [job1done] 1.

End Fixture.

From Stdlib Require Import Permutation Sorted.

(** ** The list endpoints of [app.go] *)

(** What [json.NewEncoder(w).Encode] writes for a slice: a slice that was
    never appended to is nil and is encoded as [null]. *)
Inductive JsonArray (A : Type) : Type :=
| JsonNull
| JsonItems (items : list A).
Arguments JsonNull {A}.
Arguments JsonItems {A} items.

Definition encodeSlice {A : Type} (l : list A) : JsonArray A :=
  match l with
  | [] => JsonNull
  | _ :: _ => JsonItems l
  end.

(** The answer of a list endpoint: [Listed] is status 200 with
    [Content-Type: application/json] and the encoded slice, [ListFailed] is
    [http.Error(w, err.Error(), code)]. *)
Inductive ListReply (A : Type) : Type :=
| Listed (items : JsonArray A)
| ListFailed (code : Z).
Arguments Listed {A} items.
Arguments ListFailed {A} code.

(** The [channelResponse] struct of [getChannels]. *)
Module ChannelResponse.
Record channelResponse : Set := mk {
  GuideNumber : string;
  GuideName : string
}.
End ChannelResponse.

(** [getChannels]: [SELECT guide_number, guide_name FROM channels]. *)
Definition getChannels (d : DB) : ListReply ChannelResponse.channelResponse :=
  Listed (encodeSlice
            (map (fun c => ChannelResponse.mk (GuideNumber c) (GuideName c))
                 (channels d))).

(** The anonymous struct of [getRecordings]. *)
Module RecordingItem.
Record recordingItem : Set := mk {
  ID : Z;
  ChannelID : string;
  Date : string;
  StartTime : string;
  Duration : Z;
  Status : string;
  GuideNumber : string;
  GuideName : string
}.
End RecordingItem.

(** [ORDER BY r.start_time]: the rows by the bytes of their start time.
    SQLite leaves the order of rows with equal keys open; here they keep
    their rowid order. *)
Fixpoint insertByStartTime (r : Recording) (sorted : list Recording)
    : list Recording :=
  match sorted with
  | [] => [r]
  | x :: rest =>
      if String.leb (StartTime r) (StartTime x) then r :: x :: rest
      else x :: insertByStartTime r rest
  end.

Definition orderByStartTime (rows : list Recording) : list Recording :=
  fold_right insertByStartTime [] rows.

(** The [rows.Scan] loop of [getRecordings] over the LEFT JOIN: the two
    channel columns of a job whose channel is not in [channels] are NULL and
    do not scan into Go strings; [None] is that error. *)
Fixpoint scanJoined (d : DB) (rows : list Recording)
    : option (list RecordingItem.recordingItem) :=
  match rows with
  | [] => Some []
  | r :: rest =>
      match findChannel d (ChannelID r) with
      | None => None
      | Some c =>
          match scanJoined d rest with
          | None => None
          | Some items =>
              Some (RecordingItem.mk (ID r) (ChannelID r) (Date r)
                      (StartTime r) (Duration r) (Status r)
                      (GuideNumber c) (GuideName c) :: items)
          end
      end
  end.

(** The job of an item of the list. *)
Definition rowOf (it : RecordingItem.recordingItem) : Recording :=
  mkRecording (RecordingItem.ID it) (RecordingItem.ChannelID it)
              (RecordingItem.Date it) (RecordingItem.StartTime it)
              (RecordingItem.Duration it) (RecordingItem.Status it).

(** The order of the list: by the bytes of the start time. *)
Definition byStartTime (a b : Recording) : Prop :=
  String.leb (StartTime a) (StartTime b) = true.

(** [getRecordings] *)
Definition getRecordings (d : DB) : ListReply RecordingItem.recordingItem :=
  match scanJoined d (orderByStartTime (recordings d)) with
  | None => ListFailed 500
  | Some items => Listed (encodeSlice items)
  end.

(** ** The startup pass, row by row *)

Section Startup.

Variable ParseInLocation : string -> option Z.

(** The rows [loadRecordings] sends on [recordingCh]: those whose start
    instant parses and lies after the clock reading of their iteration. *)
Fixpoint futureRows (clock : nat -> Z) (i : nat) (rows : list Recording)
    : list Recording :=
  match rows with
  | [] => []
  | r :: rest =>
      match startInstant ParseInLocation r with
      | Some startTime =>
          if Before (clock i) startTime
          then r :: futureRows clock (S i) rest
          else futureRows clock (S i) rest
      | None => futureRows clock (S i) rest
      end
  end.

End Startup.

(** ** Invariants of the store *)

(** The ids of the table are distinct and none is above the counter. *)
Definition idsOK (d : DB) : Prop :=
  NoDup (map ID (recordings d)) /\
  forall r, In r (recordings d) -> ID r <= seq d.

(** Two rows are the same job: they agree on everything but the status. *)
Definition sameJob (a b : Recording) : Prop :=
  ID a = ID b /\ ChannelID a = ChannelID b /\ Date a = Date b /\
  StartTime a = StartTime b /\ Duration a = Duration b.

(** The row a create request adds to store [d]. *)
Definition newRow (req : Req.RecordingRequest) (d : DB) : Recording :=
  mkRecording (nextID d) (Req.ChannelID req) (Req.Date req)
              (Req.StartTime req) (Req.Duration req) "pending".

(** ** [pkg/config]: the configuration file *)

Module Config.

(** The [Config] struct of [pkg/config/config.go]. *)
Record Config : Set := mk {
  Timezone : string;
  LineUpID : string;
  Days : Z;
  GuideFile : string;
  StateFile : string;
  StorageDir : string
}.

(** What [LoadConfig] comes to: [Failed] is [(nil, err)], [Fatal] is the
    [log.Fatalf] that ends the process. *)
Inductive Outcome : Set :=
| Failed
| Fatal
| Loaded (config : Config).

(** The four defaults of [LoadConfig], one per [if] of the source. *)
Definition defaultTimezone (config : Config) : Config :=
  if String.eqb (Timezone config) ""
  then mk "America/Los_Angeles" (LineUpID config) (Days config)
          (GuideFile config) (StateFile config) (StorageDir config)
  else config.

Definition defaultDays (config : Config) : Config :=
  if (Days config =? 0) || (8 <? Days config)
  then mk (Timezone config) (LineUpID config) 8
          (GuideFile config) (StateFile config) (StorageDir config)
  else config.

Definition defaultGuideFile (config : Config) : Config :=
  if String.eqb (GuideFile config) ""
  then mk (Timezone config) (LineUpID config) (Days config)
          "guide.json" (StateFile config) (StorageDir config)
  else config.

Definition defaultStateFile (config : Config) : Config :=
  if String.eqb (StateFile config) ""
  then mk (Timezone config) (LineUpID config) (Days config)
          (GuideFile config) "guide_state.json" (StorageDir config)
  else config.

(** The defaults, applied in the order of the source. *)
Definition withDefaults (config : Config) : Config :=
  defaultStateFile (defaultGuideFile (defaultDays (defaultTimezone config))).

(** [LoadConfig]: [file] is what [os.ReadFile("config.json")] gives, [None]
    when it fails; [Unmarshal] is [json.Unmarshal] into a zero [Config],
    [None] when it fails. *)
Definition LoadConfig (Unmarshal : list Byte.byte -> option Config)
    (file : option (list Byte.byte)) : Outcome :=
  match file with
  | None => Failed
  | Some data =>
      match Unmarshal data with
      | None => Failed
      | Some config =>
          if String.eqb (StorageDir config) "" then Fatal
          else Loaded (withDefaults config)
      end
  end.

End Config.

(** ** [pkg/types]: the status of a job as read from the disk *)

Module Types.

(** The [Recording] struct of [pkg/types], with its optional title. *)
Record Recording : Set := mk {
  ID : Z;
  ChannelID : string;
  Date : string;
  StartTime : string;
  Duration : Z;
  Status : string;
  Title : option string
}.

(** [GetFilePath] *)
Definition GetFilePath (r : Recording) : string :=
  let titleStr :=
    match Title r with
    | Some title => title
    | None => ChannelID r
    end in
  Date r ++ "-" ++ StartTime r ++ "-" ++ titleStr ++ ".mp4".

Section CheckStatus.

Variable ParseInLocation : string -> option Z.
Variable Join : string -> string -> string.

(** [CheckStatus]: [d] is the database, [stat] what [os.Stat] finds, [now]
    the reading of [time.Now()]. *)
Definition CheckStatus (d : DB) (stat : string -> FileState) (now : Z)
    (storageDir : string) (r : Recording) : string :=
  match findChannel d (ChannelID r) with
  | None => "failed"
  | Some _ =>
      let filePath := Join storageDir (GetFilePath r) in
      match stat filePath with
      | Regular _ | OpenError => "completed"
      | StatError => "failed"
      | NotExist =>
          match ParseInLocation (Date r ++ " " ++ StartTime r) with
          | None => "failed"
          | Some startTime =>
              if After now (Add startTime (wrap64 (Duration r * Minute)))
                 && String.eqb (Status r) "pending"
              then "failed"
              else "pending"
          end
      end
  end.

End CheckStatus.

End Types.

(** ** [cmd/guide]: the programs of the guide *)

From Stdlib Require OrderedTypeEx.

Module Guide.

(** The [Program] struct of [pkg/types]; [Video.Quality] and [Audio.Stereo]
    are its two nested fields. *)
Record Program : Set := mk {
  Channel : string;
  Title : string;
  SubTitle : string;
  Start : string;
  End : string;
  Duration : Z;
  Category : string;
  VideoQuality : string;
  AudioStereo : string;
  New : bool
}.

(** The [less] of the [sort.SliceStable] call: by start, then by channel,
    both as Go compares strings. *)
Definition less (a b : Program) : bool :=
  if String.eqb (Start a) (Start b)
  then String.ltb (Channel a) (Channel b)
  else String.ltb (Start a) (Start b).

(** [sort.SliceStable(allPrograms, less)]: programs that [less] does not
    tell apart keep their order.  As [less] is a strict order by a pair of
    keys, the result does not depend on the sorting method. *)
Fixpoint insertProgram (p : Program) (sorted : list Program) : list Program :=
  match sorted with
  | [] => [p]
  | x :: rest =>
      if less x p then x :: insertProgram p rest else p :: x :: rest
  end.

Definition sortPrograms (allPrograms : list Program) : list Program :=
  fold_right insertProgram [] allPrograms.

(** [fmt.Sprintf("%s-%s", prog.Start, prog.Channel)] *)
Definition key (prog : Program) : string :=
  Start prog ++ "-" ++ Channel prog.

(** The loop that removes duplicates; [seen] holds the keys of the map. *)
Fixpoint uniqueLoop (seen : list string) (allPrograms : list Program)
    : list Program :=
  match allPrograms with
  | [] => []
  | prog :: rest =>
      if existsb (String.eqb (key prog)) seen
      then uniqueLoop seen rest
      else prog :: uniqueLoop (key prog :: seen) rest
  end.

Definition uniquePrograms (allPrograms : list Program) : list Program :=
  uniqueLoop [] (sortPrograms allPrograms).

(** The loop over the channels in batches of 20: the slices
    [allChannels[i:end]] it asks the listings for.  It runs at most once per
    channel, which is the fuel. *)
Fixpoint batchLoop (fuel i : nat) (allChannels : list string)
    : list (list string) :=
  match fuel with
  | O => []
  | S fuel' =>
      if (i <? List.length allChannels)%nat then
        let end_ :=
          if (List.length allChannels <? i + 20)%nat
          then List.length allChannels else (i + 20)%nat in
        firstn (end_ - i) (skipn i allChannels)
          :: batchLoop fuel' (i + 20) allChannels
      else []
  end.

Definition batches (allChannels : list string) : list (list string) :=
  batchLoop (List.length allChannels) 0 allChannels.

(** The order of the sorted guide: by start, then by channel. *)
Definition ordered (a b : Program) : Prop := less b a = false.

End Guide.

(** ** The library functions on samples *)

Example Split_samples :
  Split "=" "bytes=0-99" = ["bytes"; "0-99"] /\
  Split "-" "0-99" = ["0"; "99"] /\
  Split "-" "500-" = ["500"; ""] /\
  Split "-" "-5" = [""; "5"] /\
  Split "-" "5" = ["5"] /\
  Split "=" "" = [""].
Proof. repeat split; reflexivity. Qed.

Example ParseInt_samples :
  ParseInt "0" = Some 0 /\ ParseInt "+5" = Some 5 /\ ParseInt "-7" = Some (-7) /\
  ParseInt "abc" = None /\ ParseInt "" = None /\ ParseInt "-" = None /\
  ParseInt "9223372036854775807" = Some int64_max /\
  ParseInt "9223372036854775808" = None /\
  ParseInt "-9223372036854775808" = Some int64_min.
Proof. repeat split; reflexivity. Qed.

Example FormatInt_samples :
  FormatInt 0 = "0" /\ FormatInt 1000 = "1000" /\ FormatInt (-42) = "-42" /\
  FormatInt int64_max = "9223372036854775807".
Proof. repeat split; reflexivity. Qed.

Example parseUTC_samples :
  Concrete.parseUTC "1970-01-01 00:00" = Some 0 /\
  Concrete.parseUTC "2026-01-01 19:00" = Some Fixture.t0 /\
  Concrete.parseUTC "2026-02-30 19:00" = None /\
  Concrete.parseUTC "2026-01-01 7pm" = None.
Proof. repeat split; reflexivity. Qed.
(** ** Facts about the library functions *)

Section SplitFacts.

Variable sep : ascii.

Lemma Split_not_nil (s : string) : Split sep s <> [].
Proof.
  destruct s as [|c s]; simpl; [discriminate|].
  destruct (Ascii.eqb c sep); [discriminate|].
  destruct (Split sep s); discriminate.
Qed.

Lemma Split_without_sep (s : string) :
  contains sep s = false -> Split sep s = [s].
Proof.
  induction s as [|c s IH]; simpl; intros H; [reflexivity|].
  apply orb_false_iff in H as [Hc Hs].
  rewrite Hc, (IH Hs). reflexivity.
Qed.

Lemma Split_at_sep (a b : string) :
  contains sep a = false ->
  Split sep (a ++ String sep b) = a :: Split sep b.
Proof.
  induction a as [|c a IH]; simpl; intros H.
  - rewrite Ascii.eqb_refl. reflexivity.
  - apply orb_false_iff in H as [Hc Ha].
    rewrite Hc, (IH Ha). reflexivity.
Qed.

(** Reading a split back: the first field has no separator, and the other
    fields are the split of what follows the first separator. *)
Lemma Split_cons_inv (s a : string) (rest : list string) :
  Split sep s = a :: rest ->
  contains sep a = false /\
  match rest with
  | [] => s = a
  | _ :: _ => exists t, s = a ++ String sep t /\ Split sep t = rest
  end.
Proof.
  revert a rest. induction s as [|c s IH]; simpl; intros a rest H.
  - injection H as <- <-. split; reflexivity.
  - destruct (Ascii.eqb c sep) eqn:Hc.
    + injection H as <- <-. split; [reflexivity|].
      apply Ascii.eqb_eq in Hc. subst c.
      pose proof (Split_not_nil s) as Hn.
      destruct (Split sep s) eqn:Hs; [contradiction|].
      exists s. split; [reflexivity|assumption].
    + destruct (Split sep s) as [|f fs] eqn:Hs.
      * exfalso. eapply Split_not_nil; eassumption.
      * injection H as <- <-.
        destruct (IH f fs eq_refl) as [Hf Hrest].
        split; [simpl; rewrite Hc, Hf; reflexivity|].
        destruct fs as [|g gs].
        -- subst s. reflexivity.
        -- destruct Hrest as (t & -> & Ht). exists t. split; [reflexivity|assumption].
Qed.

End SplitFacts.
Section DigitFacts.

Lemma append_assoc (a b c : string) : ((a ++ b) ++ c = a ++ (b ++ c))%string.
Proof. induction a as [|x a IH]; simpl; [reflexivity|]. rewrite IH. reflexivity. Qed.

Lemma length_append (a b : string) :
  String.length (a ++ b) = (String.length a + String.length b)%nat.
Proof. induction a as [|x a IH]; simpl; [reflexivity|]. rewrite IH. reflexivity. Qed.

Lemma append_nil_r (a : string) : (a ++ "")%string = a.
Proof. induction a as [|x a IH]; simpl; [reflexivity|]. rewrite IH. reflexivity. Qed.

Lemma isDigit_not_punct (c : ascii) :
  isDigit c = true ->
  Ascii.eqb c "-" = false /\ Ascii.eqb c "+" = false /\ Ascii.eqb c "=" = false.
Proof.
  destruct c as [[] [] [] [] [] [] [] []]; vm_compute; intros H;
    (discriminate H || (repeat split; reflexivity)).
Qed.

Lemma digitChar_isDigit (d : Z) :
  0 <= d <= 9 -> isDigit (digitChar d) = true /\ digitVal (digitChar d) = d.
Proof.
  intros H.
  assert (d = 0 \/ d = 1 \/ d = 2 \/ d = 3 \/ d = 4 \/ d = 5 \/ d = 6 \/
          d = 7 \/ d = 8 \/ d = 9) as Hd by lia.
  repeat (destruct Hd as [-> | Hd]; [split; reflexivity|]).
  subst d. split; reflexivity.
Qed.

Lemma allDigits_no_dash (s : string) :
  allDigits s = true -> contains "-" s = false /\ contains "=" s = false.
Proof.
  induction s as [|c s IH]; simpl; [split; reflexivity|].
  intros H. apply andb_true_iff in H as [Hc Hs].
  destruct (isDigit_not_punct c Hc) as (H1 & _ & H3).
  destruct (IH Hs) as [I1 I2].
  rewrite H1, H3, I1, I2. split; reflexivity.
Qed.

Lemma parseDigits_allDigits (s : string) (acc n : Z) :
  parseDigits s acc = Some n -> allDigits s = true.
Proof.
  revert acc. induction s as [|c s IH]; simpl; intros acc H; [reflexivity|].
  destruct (isDigit c); [|discriminate]. simpl. eauto.
Qed.

Lemma formatUint_step (k : nat) (n : Z) (acc : string) :
  formatUint (S k) n acc
  = if n <? 10 then String (digitChar (n mod 10)) acc
    else formatUint k (n / 10) (String (digitChar (n mod 10)) acc).
Proof. reflexivity. Qed.

(** [formatUint] puts in front of [acc] a non-empty run of digits that reads
    back as [n]. *)
Lemma formatUint_digits (k : nat) :
  forall n acc, 0 <= n < 10 ^ Z.of_nat (S k) ->
  exists ds,
    formatUint (S k) n acc = (ds ++ acc)%string /\
    ds <> EmptyString /\
    allDigits ds = true /\
    forall a rest,
      parseDigits (ds ++ rest) a
      = parseDigits rest (a * 10 ^ Z.of_nat (String.length ds) + n).
Proof.
  induction k as [|k IH]; intros n acc Hn.
  - change (10 ^ Z.of_nat 1) with 10 in Hn.
    assert (n mod 10 = n) as Hm by (apply Z.mod_small; lia).
    destruct (digitChar_isDigit n ltac:(lia)) as [Hd Hv].
    exists (String (digitChar n) EmptyString).
    rewrite formatUint_step. cbn [formatUint]. rewrite Hm.
    destruct (n <? 10); (split; [reflexivity|]); (split; [discriminate|]);
      (split; [simpl; rewrite Hd; reflexivity|]);
      intros a rest; cbn [append parseDigits String.length];
      rewrite Hd, Hv; f_equal; change (10 ^ Z.of_nat 1) with 10; lia.
  - rewrite formatUint_step.
    pose proof (Z.mod_pos_bound n 10 ltac:(lia)) as Hmod.
    destruct (digitChar_isDigit (n mod 10) ltac:(lia)) as [Hd Hv].
    destruct (n <? 10) eqn:Hlt.
    + apply Z.ltb_lt in Hlt.
      assert (n mod 10 = n) as Hm by (apply Z.mod_small; lia).
      exists (String (digitChar (n mod 10)) EmptyString).
      split; [reflexivity|]. split; [discriminate|].
      split; [simpl; rewrite Hd; reflexivity|].
      intros a rest; cbn [append parseDigits String.length];
      rewrite Hd, Hv; f_equal; change (10 ^ Z.of_nat 1) with 10; lia.
    + apply Z.ltb_ge in Hlt.
      assert (0 <= n / 10 < 10 ^ Z.of_nat (S k)) as Hq.
      { split; [apply Z.div_pos; lia|].
        apply Z.div_lt_upper_bound; [lia|].
        replace (Z.of_nat (S (S k))) with (Z.succ (Z.of_nat (S k))) in Hn by lia.
        rewrite Z.pow_succ_r in Hn by lia. lia. }
      destruct (IH (n / 10) (String (digitChar (n mod 10)) acc) Hq)
        as (ds & Hfmt & Hne & Hall & Hparse).
      exists (ds ++ String (digitChar (n mod 10)) EmptyString)%string.
      split.
      { rewrite Hfmt. rewrite append_assoc. reflexivity. }
      split.
      { destruct ds; [contradiction|discriminate]. }
      split.
      { clear - Hall Hd. induction ds as [|c ds I]; simpl in *.
        - rewrite Hd. reflexivity.
        - apply andb_true_iff in Hall as [-> H2]. simpl. auto. }
      intros a rest.
      rewrite append_assoc. rewrite Hparse. cbn [append parseDigits].
      rewrite Hd, Hv. f_equal.
      rewrite length_append. cbn [String.length].
      replace (Z.of_nat (String.length ds + 1)) with (Z.succ (Z.of_nat (String.length ds))) by lia.
      rewrite Z.pow_succ_r by lia.
      pose proof (Z.div_mod n 10 ltac:(lia)). lia.
Qed.

End DigitFacts.

Section ParseFacts.

Lemma contains_cons (c d : ascii) (s : string) :
  contains c (String d s) = Ascii.eqb d c || contains c s.
Proof. reflexivity. Qed.

Lemma parseDigits_lower (s : string) :
  forall acc n, parseDigits s acc = Some n -> 0 <= acc -> 0 <= n.
Proof.
  induction s as [|c s IH]; cbn [parseDigits]; intros acc n H Hacc.
  - injection H as <-. assumption.
  - destruct (isDigit c) eqn:Hc; [|discriminate].
    apply (IH _ _ H). unfold isDigit in Hc. unfold digitVal.
    apply andb_true_iff in Hc as [Hc _]. apply Z.leb_le in Hc. lia.
Qed.

(** What [ParseInt] accepts has no ['='], and without a ['-'] it is not
    negative. *)
Lemma ParseInt_shape (s : string) (n : Z) :
  ParseInt s = Some n ->
  s <> EmptyString /\ contains "=" s = false /\
  (contains "-" s = false -> 0 <= n /\ n < 2 ^ 63).
Proof.
  destruct s as [|c rest]; [discriminate|].
  unfold ParseInt. intros H. split; [discriminate|].
  destruct (Ascii.eqb c "-") eqn:Hm.
  - rewrite orb_true_r in H.
    destruct rest as [|c' rest']; [discriminate|].
    destruct (parseDigits (String c' rest') 0) as [un|] eqn:Hp; [|discriminate].
    apply parseDigits_allDigits in Hp. apply allDigits_no_dash in Hp as [_ Hp].
    apply Ascii.eqb_eq in Hm. subst c. split.
    + rewrite contains_cons, Hp. reflexivity.
    + rewrite contains_cons, Ascii.eqb_refl. discriminate.
  - rewrite orb_false_r in H.
    destruct (Ascii.eqb c "+") eqn:Hplus.
    + destruct rest as [|c' rest']; [discriminate|].
      destruct (parseDigits (String c' rest') 0) as [un|] eqn:Hp; [|discriminate].
      pose proof (parseDigits_lower _ _ _ Hp ltac:(lia)) as Hlow.
      apply parseDigits_allDigits in Hp. apply allDigits_no_dash in Hp as [_ Hp].
      apply Ascii.eqb_eq in Hplus. subst c. split.
      * rewrite contains_cons, Hp. reflexivity.
      * intros _. destruct (un <? 2 ^ 63) eqn:Hlt; [|discriminate].
        injection H as <-. apply Z.ltb_lt in Hlt. lia.
    + destruct (parseDigits (String c rest) 0) as [un|] eqn:Hp; [|discriminate].
      pose proof (parseDigits_lower _ _ _ Hp ltac:(lia)) as Hlow.
      apply parseDigits_allDigits in Hp. apply allDigits_no_dash in Hp as [_ Hp].
      split; [assumption|].
      intros _. destruct (un <? 2 ^ 63) eqn:Hlt; [|discriminate].
      injection H as <-. apply Z.ltb_lt in Hlt. lia.
Qed.

(** The decimal rendering of a non-negative int64 reads back as itself. *)
Lemma ParseInt_FormatInt (n : Z) :
  0 <= n < 2 ^ 63 ->
  ParseInt (FormatInt n) = Some n /\ contains "-" (FormatInt n) = false.
Proof.
  intros Hn. unfold FormatInt.
  destruct (n <? 0) eqn:Hneg; [apply Z.ltb_lt in Hneg; lia|].
  destruct (formatUint_digits 19 n "" ltac:(change (10 ^ Z.of_nat 20) with 100000000000000000000; change (2 ^ 63) with 9223372036854775808 in Hn; lia))
    as (ds & Hfmt & Hne & Hall & Hparse).
  rewrite append_nil_r in Hfmt. rewrite Hfmt.
  pose proof (Hparse 0 EmptyString) as Hp. rewrite append_nil_r in Hp.
  cbn [parseDigits] in Hp. rewrite Z.mul_0_l, Z.add_0_l in Hp.
  split; [|apply allDigits_no_dash; assumption].
  destruct ds as [|c rest]; [contradiction|].
  cbn [allDigits] in Hall. apply andb_true_iff in Hall as [Hc _].
  destruct (isDigit_not_punct c Hc) as (H1 & H2 & _).
  unfold ParseInt. rewrite H1, H2. cbn [orb]. rewrite Hp.
  destruct (n <? 2 ^ 63) eqn:Hlt; [reflexivity|].
  apply Z.ltb_ge in Hlt. lia.
Qed.

End ParseFacts.

Section RangeFacts.

Lemma parseDigits_value (ds : string) :
  forall acc, allDigits ds = true ->
  parseDigits ds acc
  = Some (fold_left (fun a c => 10 * a + digitVal c)
                    (list_ascii_of_string ds) acc).
Proof.
  induction ds as [|c ds IH]; intros acc H; [reflexivity|].
  cbn [allDigits] in H. apply andb_true_iff in H as [Hc Hds].
  cbn [parseDigits list_ascii_of_string fold_left]. rewrite Hc.
  apply IH, Hds.
Qed.

Lemma ParseInt_digits (ds : string) :
  ds <> EmptyString -> allDigits ds = true -> digitsValue ds < 2 ^ 63 ->
  ParseInt ds = Some (digitsValue ds) /\
  ParseInt (String "+" ds) = Some (digitsValue ds).
Proof.
  intros Hne Hall Hlt. pose proof (parseDigits_value ds 0 Hall) as Hp.
  fold (digitsValue ds) in Hp. apply Z.ltb_lt in Hlt.
  destruct ds as [|c rest]; [contradiction|]. split.
  - cbn [allDigits] in Hall. apply andb_true_iff in Hall as [Hc _].
    destruct (isDigit_not_punct c Hc) as (H1 & H2 & _).
    unfold ParseInt. rewrite H1, H2. cbn [orb]. rewrite Hp, Hlt. reflexivity.
  - unfold ParseInt.
    change (Ascii.eqb "+" "-") with false. change (Ascii.eqb "+" "+") with true.
    cbn [orb]. rewrite Hp, Hlt. reflexivity.
Qed.

(** A literal is what [ParseInt] reads from a string without a minus sign. *)
Lemma literal_ParseInt (s : string) (n : Z) :
  literal s n <-> ParseInt s = Some n /\ contains "-" s = false.
Proof.
  split.
  - intros (ds & Hs & Hne & Hall & <- & Hlt).
    destruct (ParseInt_digits ds Hne Hall Hlt) as [H1 H2].
    destruct (allDigits_no_dash ds Hall) as [Hd _].
    destruct Hs as [-> | ->]; split; assumption.
  - intros [Hp Hd]. destruct s as [|c rest]; [discriminate|].
    rewrite contains_cons in Hd. apply orb_false_iff in Hd as [Hc Hrest].
    unfold ParseInt in Hp. rewrite Hc, orb_false_r in Hp.
    destruct (Ascii.eqb c "+") eqn:Hplus.
    + apply Ascii.eqb_eq in Hplus. subst c.
      destruct rest as [|c' rest']; [discriminate|].
      destruct (parseDigits (String c' rest') 0) as [un|] eqn:Hun; [|discriminate].
      destruct (un <? 2 ^ 63) eqn:Hlt; [|discriminate]. injection Hp as <-.
      pose proof (parseDigits_allDigits _ _ _ Hun) as Hall.
      rewrite (parseDigits_value _ 0 Hall) in Hun. injection Hun as Hun.
      exists (String c' rest'). apply Z.ltb_lt in Hlt.
      repeat split; auto. discriminate.
    + destruct (parseDigits (String c rest) 0) as [un|] eqn:Hun; [|discriminate].
      destruct (un <? 2 ^ 63) eqn:Hlt; [|discriminate]. injection Hp as <-.
      pose proof (parseDigits_allDigits _ _ _ Hun) as Hall.
      rewrite (parseDigits_value _ 0 Hall) in Hun. injection Hun as Hun.
      exists (String c rest). apply Z.ltb_lt in Hlt.
      repeat split; auto. discriminate.
Qed.

Lemma Split_bytes (v : string) :
  contains "=" v = false -> Split "=" ("bytes=" ++ v) = ["bytes"; v].
Proof.
  intros H. change ("bytes=" ++ v)%string with ("bytes" ++ String "=" v)%string.
  rewrite Split_at_sep by reflexivity.
  rewrite Split_without_sep by assumption. reflexivity.
Qed.

Lemma contains_append (c : ascii) (a b : string) :
  contains c (a ++ b) = contains c a || contains c b.
Proof.
  induction a as [|x a IH]; simpl; [reflexivity|].
  rewrite IH. apply orb_assoc.
Qed.

Lemma firstn_skipn_window (l : list Byte.byte) :
  forall n a, (a + n <= List.length l)%nat ->
  firstn n (skipn a l) = map (fun i => nth i l Byte.x00) (List.seq a n).
Proof.
  induction n as [|n IH]; intros a H; [reflexivity|].
  assert (skipn a l = nth a l Byte.x00 :: skipn (S a) l) as Hs.
  { clear IH. revert a H. induction l as [|x l IHl]; intros a H.
    - simpl in H. lia.
    - destruct a as [|a]; [reflexivity|].
      simpl in H. change (skipn (S a) (x :: l)) with (skipn a l).
      rewrite (IHl a ltac:(lia)). reflexivity. }
  rewrite Hs. cbn [firstn List.seq map]. f_equal. apply IH. lia.
Qed.

Lemma serveRange_values (v : string) (content : list Byte.byte) :
  contains "=" v = false ->
  serveRange ("bytes=" ++ v) content
  = let rangeValues := Split "-" v in
    if (List.length rangeValues <? 1)%nat || (2 <? List.length rangeValues)%nat
    then httpError (Plain "Invalid range header") 400
    else
      match ParseInt (nth 0 rangeValues "") with
      | None => httpError (Plain "Invalid range header") 400
      | Some start =>
          match (if (List.length rangeValues =? 2)%nat
                    && negb (String.eqb (nth 1 rangeValues "") "")
                 then ParseInt (nth 1 rangeValues "")
                 else Some (Z.of_nat (List.length content) - 1)) with
          | None => httpError (Plain "Invalid range header") 400
          | Some end_ => rangeAnswer start end_ content
          end
      end.
Proof.
  intros H. unfold serveRange. rewrite (Split_bytes v H). reflexivity.
Qed.

Lemma serveRange_of_form (h : string) (A : Z) (B : option Z)
    (content : list Byte.byte) :
  RangeForm h A B ->
  serveRange h content
  = rangeAnswer A (lastByte B (Z.of_nat (List.length content))) content.
Proof.
  intros [h' A' B' [a b A0 B0 La Lb | a A0 La] | a A0 La];
    apply literal_ParseInt in La as [Ha Hda];
    try apply literal_ParseInt in Lb as [Hb Hdb].
  - destruct (ParseInt_shape _ _ Ha) as (_ & Hea & _).
    destruct (ParseInt_shape _ _ Hb) as (Hne & Heb & _).
    rewrite serveRange_values.
    2:{ rewrite contains_append, Hea. simpl. exact Heb. }
    change (a ++ "-" ++ b)%string with (a ++ String "-" b)%string.
    rewrite (Split_at_sep "-" a b Hda), (Split_without_sep "-" b Hdb).
    cbn [List.length Nat.ltb Nat.leb Nat.eqb orb andb nth]. rewrite Ha.
    destruct b as [|c b]; [contradiction|].
    cbn [String.eqb negb]. rewrite Hb. reflexivity.
  - destruct (ParseInt_shape _ _ Ha) as (_ & Hea & _).
    rewrite serveRange_values.
    2:{ rewrite contains_append, Hea. reflexivity. }
    change (a ++ "-")%string with (a ++ String "-" "")%string.
    rewrite (Split_at_sep "-" a "" Hda).
    cbn [Split List.length Nat.ltb Nat.leb Nat.eqb orb andb nth String.eqb negb].
    rewrite Ha. reflexivity.
  - destruct (ParseInt_shape _ _ Ha) as (_ & Hea & _).
    rewrite serveRange_values by assumption.
    rewrite (Split_without_sep "-" a Hda).
    cbn [List.length Nat.ltb Nat.leb Nat.eqb orb andb nth]. rewrite Ha.
    reflexivity.
Qed.

Lemma serveRange_rejects_or_form (h : string) (content : list Byte.byte) :
  serveRange h content = httpError (Plain "Invalid range header") 400 \/
  exists A B, RangeForm h A B.
Proof.
  unfold serveRange.
  destruct (Split "=" h) as [|p0 [|p1 [|p2 ps]]] eqn:Hsplit; auto.
  destruct (String.eqb p0 "bytes") eqn:Hp0; cbn [negb]; auto.
  apply String.eqb_eq in Hp0. subst p0.
  destruct (Split_cons_inv _ _ _ _ Hsplit) as (_ & t & -> & Ht).
  destruct (Split_cons_inv _ _ _ _ Ht) as (_ & ->).
  destruct (Split "-" p1) as [|a [|b [|c cs]]] eqn:Hv; auto.
  - destruct (Split_cons_inv _ _ _ _ Hv) as (Hda & ->).
    cbn [List.length Nat.ltb Nat.leb Nat.eqb orb andb nth].
    destruct (ParseInt a) as [A|] eqn:Ha; auto.
    right. exists A, None. apply FormBare, literal_ParseInt. split; assumption.
  - destruct (Split_cons_inv _ _ _ _ Hv) as (Hda & t & -> & Ht2).
    destruct (Split_cons_inv _ _ _ _ Ht2) as (Hdb & ->).
    cbn [List.length Nat.ltb Nat.leb Nat.eqb orb andb nth].
    destruct (ParseInt a) as [A|] eqn:Ha; auto.
    destruct (String.eqb b "") eqn:Hb0; cbn [negb].
    + apply String.eqb_eq in Hb0. subst b.
      right. exists A, None. apply FormSpec, FormOpen, literal_ParseInt.
      split; assumption.
    + destruct (ParseInt b) as [B|] eqn:Hb; auto.
      right. exists A, (Some B).
      apply FormSpec, FormClosed; apply literal_ParseInt; split; assumption.
Qed.

End RangeFacts.

(** ** Facts about the store *)

Section StoreFacts.

Lemma statusOf_updateCompleted (d : DB) (id' id : Z) :
  statusOf (updateCompleted d id') id
  = if id =? id' then option_map (fun _ => "completed") (statusOf d id)
    else statusOf d id.
Proof.
  unfold statusOf, findRecording, updateCompleted. cbn [recordings].
  induction (recordings d) as [|r rows IH]; cbn [map find].
  - destruct (id =? id'); reflexivity.
  - destruct (ID r =? id') eqn:Hr.
    + cbn [setStatus ID]. destruct (ID r =? id) eqn:Hi.
      * apply Z.eqb_eq in Hr, Hi. subst.
        rewrite Z.eqb_refl. reflexivity.
      * exact IH.
    + destruct (ID r =? id) eqn:Hi.
      * apply Z.eqb_eq in Hi. subst id. rewrite Hr. reflexivity.
      * exact IH.
Qed.

Lemma find_app_some {A : Type} (f : A -> bool) (l l' : list A) (x : A) :
  find f l = Some x -> find f (l ++ l') = Some x.
Proof.
  induction l as [|y l IH]; cbn [find app]; [discriminate|].
  destruct (f y); auto.
Qed.

Lemma statusOf_insert (d : DB) (c dt st : string) (dur : Z) (status0 : string)
    (id : Z) (x : string) :
  statusOf d id = Some x ->
  statusOf (fst (insertRecording d c dt st dur status0)) id = Some x.
Proof.
  unfold statusOf, findRecording, insertRecording. cbn [fst recordings].
  destruct (find _ (recordings d)) as [r|] eqn:Hf; [|discriminate].
  intros H. rewrite (find_app_some _ _ _ _ Hf). exact H.
Qed.

Lemma statusOf_delete (d : DB) (id' id : Z) :
  statusOf (deleteByID d id') id
  = if id =? id' then None else statusOf d id.
Proof.
  unfold statusOf, findRecording, deleteByID. cbn [recordings].
  induction (recordings d) as [|r rows IH]; cbn [filter find].
  - destruct (id =? id'); reflexivity.
  - destruct (ID r =? id') eqn:Hr; cbn [negb].
    + rewrite IH. destruct (id =? id') eqn:Hi; [reflexivity|].
      destruct (ID r =? id) eqn:Hri; [|reflexivity].
      apply Z.eqb_eq in Hr, Hri. apply Z.eqb_neq in Hi. congruence.
    + cbn [find]. destruct (ID r =? id) eqn:Hri.
      * apply Z.eqb_eq in Hri. subst id. rewrite Hr. reflexivity.
      * exact IH.
Qed.

Lemma maxID_bound (rows : list Recording) (r : Recording) :
  In r rows -> ID r <= maxID rows.
Proof.
  induction rows as [|x rows IH]; cbn [In maxID fold_right]; [contradiction|].
  intros [-> | H]; [lia|]. specialize (IH H). unfold maxID in IH. lia.
Qed.

Lemma nextID_fresh (d : DB) : findRecording d (nextID d) = None.
Proof.
  unfold findRecording.
  destruct (find _ (recordings d)) as [r|] eqn:Hf; [|reflexivity].
  apply find_some in Hf as [Hin Heq]. apply Z.eqb_eq in Heq.
  pose proof (maxID_bound _ _ Hin). unfold nextID in Heq. lia.
Qed.

Lemma insertChannelOrIgnore_recordings (d : DB) (c : Channel) :
  recordings (insertChannelOrIgnore d c) = recordings d.
Proof.
  unfold insertChannelOrIgnore. destruct (channelExists d (GuideNumber c)); reflexivity.
Qed.

Lemma insertChannelOrIgnore_exists (d : DB) (c : Channel) (k : string) :
  channelExists d k = true -> channelExists (insertChannelOrIgnore d c) k = true.
Proof.
  unfold insertChannelOrIgnore.
  destruct (channelExists d (GuideNumber c)); [auto|].
  unfold channelExists. cbn [channels]. intros H.
  rewrite existsb_app, H. reflexivity.
Qed.

Lemma loadChannels_recordings (lineup : option (list Channel)) (d : DB) :
  recordings (loadChannels lineup d) = recordings d.
Proof.
  destruct lineup as [chs|]; [|reflexivity]. cbn [loadChannels].
  revert d. induction chs as [|c chs IH]; intros d; [reflexivity|].
  cbn [fold_left]. rewrite IH. apply insertChannelOrIgnore_recordings.
Qed.

Lemma loadChannels_exists (lineup : option (list Channel)) (d : DB) (k : string) :
  channelExists d k = true -> channelExists (loadChannels lineup d) k = true.
Proof.
  destruct lineup as [chs|]; [|auto]. cbn [loadChannels].
  revert d. induction chs as [|c chs IH]; intros d H; [assumption|].
  cbn [fold_left]. apply IH, insertChannelOrIgnore_exists, H.
Qed.

Lemma channelExists_find (d : DB) (k : string) :
  channelExists d k = true ->
  exists c, findChannel d k = Some c /\ GuideNumber c = k.
Proof.
  unfold channelExists, findChannel.
  induction (channels d) as [|c cs IH]; cbn [existsb find]; [discriminate|].
  destruct (String.eqb (GuideNumber c) k) eqn:Hc.
  - intros _. exists c. split; [reflexivity|]. apply String.eqb_eq, Hc.
  - cbn [orb]. exact IH.
Qed.

Lemma findChannel_key (d : DB) (k : string) (c : Channel) :
  findChannel d k = Some c -> GuideNumber c = k.
Proof.
  unfold findChannel. intros H. apply find_some in H as [_ H].
  apply String.eqb_eq, H.
Qed.

End StoreFacts.

(** ** The scheduler *)

Section SchedulerFacts.

Variable ParseInLocation : string -> option Z.
Variable Join : string -> string -> string.

Lemma window_test (t now : Z) :
  After now t && Before now (Add t (1 * Minute)) = true <-> Window.open t now.
Proof.
  unfold After, Before, Add, Window.open.
  rewrite andb_true_iff, !Z.ltb_lt. lia.
Qed.

(** The jobs a tick hands to workers are the rows whose start instant parses
    and lies strictly less than a minute before [now]. *)
Lemma dispatch_In (now : Z) (rows : list Recording) (r : Recording) :
  In r (dispatch ParseInLocation now rows) <->
  In r rows /\
  exists t, startInstant ParseInLocation r = Some t /\ Window.open t now.
Proof.
  induction rows as [|x rows IH]; cbn [dispatch In]; [tauto|].
  destruct (startInstant ParseInLocation x) as [t|] eqn:Hx.
  - destruct (After now t && Before now (Add t (1 * Minute))) eqn:Hw.
    + cbn [In]. rewrite IH. apply window_test in Hw. split.
      * intros [-> | [Hin Ht]]; [|tauto]. split; [left; reflexivity|eauto].
      * intros [[-> | Hin] Ht]; [left; reflexivity|right; tauto].
    + rewrite IH. split; [tauto|].
      intros [[-> | Hin] Ht]; [|tauto]. exfalso.
      destruct Ht as (t' & Ht' & Hopen). rewrite Hx in Ht'. injection Ht' as <-.
      apply window_test in Hopen. congruence.
  - rewrite IH. split; [tauto|].
    intros [[-> | Hin] Ht]; [|tauto]. exfalso.
    destruct Ht as (t' & Ht' & _). congruence.
Qed.

Lemma selectPending_In (d : DB) (r : Recording) :
  In r (selectPending d) <-> In r (recordings d) /\ Status r = "pending".
Proof.
  unfold selectPending. rewrite filter_In, String.eqb_eq. reflexivity.
Qed.

Lemma filter_length_In (id : Z) (l : list Recording) (r : Recording) :
  In r l -> ID r = id ->
  (1 <= List.length (filter (fun x => (ID x =? id)%Z) l))%nat.
Proof.
  intros Hin Hid.
  assert (In r (filter (fun x => ID x =? id) l)) as H.
  { apply filter_In. split; [assumption|]. apply Z.eqb_eq, Hid. }
  destruct (filter _ l); [contradiction|]. cbn [List.length]. lia.
Qed.

Lemma launches_tick (id now : Z) (s : State) :
  launches id (tick ParseInLocation now s)
  = (launches id s
     + List.length (filter (fun x => (ID x =? id)%Z)
                      (dispatch ParseInLocation now (selectPending (db s)))))%nat.
Proof.
  unfold launches, tick. cbn [workers].
  rewrite filter_app, length_app. reflexivity.
Qed.

(** The scheduler's own events leave the [recordings] table as it is. *)
Lemma scheduler_keeps_recordings (evs : list Event) :
  forall s, forallb schedulerEvent evs = true ->
  recordings (db (run ParseInLocation Join evs s)) = recordings (db s).
Proof.
  induction evs as [|e evs IH]; intros s H; [reflexivity|].
  cbn [forallb] in H. apply andb_true_iff in H as [He Hevs].
  cbn [run fold_left].
  change (fold_left _ evs ?x) with (run ParseInLocation Join evs x).
  rewrite (IH _ Hevs).
  destruct e; cbn [schedulerEvent] in He; try discriminate He;
    cbn [step db tick recv].
  - apply loadChannels_recordings.
  - reflexivity.
  - reflexivity.
Qed.

End SchedulerFacts.

(** ** Scheduler claims *)

Import Concrete Fixture.

(** C1, as the code has it.  A tick launches a worker for each due pending
    job and writes nothing to the store: there is no compare-and-set, the
    launched job is still in the table with status 'pending', and a second
    caller that finds it due launches it again. *)
Theorem tick_launches_without_store_update
    (ParseInLocation : string -> option Z)
    (now now' : Z) (s : State) (r : Recording) (t : Z) :
  In r (recordings (db s)) ->
  Status r = "pending" ->
  startInstant ParseInLocation r = Some t ->
  Window.open t now ->
  Window.open t now' ->
  let s1 := tick ParseInLocation now s in
  let s2 := tick ParseInLocation now' s1 in
  db s1 = db s /\ In r (workers s1) /\ In r (recordings (db s1)) /\
  db s2 = db s /\ (launches (ID r) s + 2 <= launches (ID r) s2)%nat.
Proof.
  intros Hin Hst Ht Hnow Hnow' s1 s2.
  assert (forall n, Window.open t n ->
            In r (dispatch ParseInLocation n (selectPending (db s)))) as Hd.
  { intros n Hn. apply dispatch_In. split; [|eauto].
    apply selectPending_In. split; assumption. }
  split; [reflexivity|]. split.
  { unfold s1, tick. cbn [workers]. apply in_or_app. right. apply Hd, Hnow. }
  split; [exact Hin|]. split; [reflexivity|].
  unfold s2. rewrite launches_tick. unfold s1 at 1. rewrite launches_tick.
  change (db s1) with (db s).
  pose proof (filter_length_In (ID r) _ r (Hd now Hnow) eq_refl).
  pose proof (filter_length_In (ID r) _ r (Hd now' Hnow') eq_refl).
  lia.
Qed.

Lemma tick_launches_without_store_update_witness :
  let s1 := tick parseUTC (t0 + 30 * second) state1 in
  let s2 := tick parseUTC (t0 + 45 * second) s1 in
  db s1 = db state1 /\ In job1 (workers s1) /\ In job1 (recordings (db s1)) /\
  db s2 = db state1 /\ (launches 1 state1 + 2 <= launches 1 s2)%nat.
Proof.
  apply (tick_launches_without_store_update parseUTC
           (t0 + 30 * second) (t0 + 45 * second) state1 job1 t0).
  - left. reflexivity.
  - reflexivity.
  - reflexivity.
  - unfold Window.open. vm_compute. split; reflexivity.
  - unfold Window.open. vm_compute. split; reflexivity.
Defined.

(** C1, as the spec states it, fails: the due job is handed to a worker
    while its stored status is still 'pending', not 'recording', and a second
    tick inside the window hands it to a second worker. *)
Lemma due_job_is_launched_twice_and_stays_pending :
  let s1 := tick parseUTC (t0 + 30 * second) state1 in
  let s2 := tick parseUTC (t0 + 45 * second) s1 in
  workers s1 = [job1] /\ statusOf (db s1) 1 = Some "pending" /\
  statusOf (db s1) 1 <> Some "recording" /\
  workers s2 = [job1; job1].
Proof.
  vm_compute. repeat split. discriminate.
Qed.

(** C5, as the code has it.  A pending job whose start instant parses is
    matched by a tick exactly when [start < now < start + 1 minute]: the
    window is open at both ends. *)
Theorem tick_matches_in_open_window
    (ParseInLocation : string -> option Z)
    (now : Z) (s : State) (r : Recording) (t : Z) :
  In r (recordings (db s)) ->
  Status r = "pending" ->
  startInstant ParseInLocation r = Some t ->
  (In r (dispatch ParseInLocation now (selectPending (db s)))
   <-> Window.open t now).
Proof.
  intros Hin Hst Ht. rewrite dispatch_In, selectPending_In. split.
  - intros (_ & t' & Ht' & Hopen). congruence.
  - intros Hopen. split; [split; assumption|eauto].
Qed.

Lemma tick_matches_in_open_window_witness :
  In job1 (dispatch parseUTC (t0 + 30 * second) (selectPending (db state1)))
  <-> Window.open t0 (t0 + 30 * second).
Proof.
  apply (tick_matches_in_open_window parseUTC (t0 + 30 * second) state1 job1 t0).
  - left. reflexivity.
  - reflexivity.
  - reflexivity.
Defined.

(** C5, as the spec states it, fails at the start instant itself: [now]
    lies in [[start, start + 1 minute)] and the tick matches nothing. *)
Lemma tick_at_start_instant_matches_nothing :
  startInstant parseUTC job1 = Some t0 /\
  Window.halfOpen t0 t0 /\
  dispatch parseUTC t0 (selectPending (db state1)) = [] /\
  workers (tick parseUTC t0 state1) = [].
Proof.
  split; [reflexivity|]. split; [unfold Window.halfOpen; vm_compute; split; [discriminate|reflexivity]|].
  split; reflexivity.
Qed.

(** C3, as the code has it.  Neither a tick nor the startup pass writes to
    the store: after any run of scheduler events a job that was 'pending' is
    still in the table as it was, 'pending', and once its window has elapsed
    no tick launches it. *)
Theorem elapsed_pending_job_is_left_pending
    (ParseInLocation : string -> option Z) (Join : string -> string -> string)
    (evs : list Event) (s : State) (r : Recording) (t now : Z) :
  forallb schedulerEvent evs = true ->
  In r (recordings (db s)) ->
  Status r = "pending" ->
  startInstant ParseInLocation r = Some t ->
  1 <= Duration r ->
  Window.elapsed t (Duration r) now ->
  let s' := run ParseInLocation Join evs s in
  In r (recordings (db s')) /\
  statusOf (db s') (ID r) = statusOf (db s) (ID r) /\
  ~ In r (dispatch ParseInLocation now (selectPending (db s'))).
Proof.
  intros Hevs Hin Hst Ht Hdur Hel s'.
  pose proof (scheduler_keeps_recordings ParseInLocation Join evs s Hevs) as Hk.
  fold s' in Hk. split; [rewrite Hk; exact Hin|]. split.
  - unfold statusOf, findRecording. rewrite Hk. reflexivity.
  - rewrite dispatch_In. intros (_ & t' & Ht' & Hopen).
    rewrite Ht in Ht'. injection Ht' as <-.
    unfold Window.open in Hopen. unfold Window.elapsed in Hel.
    unfold Minute in *. nia.
Qed.

Lemma elapsed_pending_job_is_left_pending_witness :
  let s' := run parseUTC joinPlain
                [Restart None (fun _ => t0 + 3600 * second);
                 Tick (t0 + 3600 * second)] state1 in
  In job1 (recordings (db s')) /\
  statusOf (db s') 1 = statusOf (db state1) 1 /\
  ~ In job1 (dispatch parseUTC (t0 + 3600 * second) (selectPending (db s'))).
Proof.
  apply (elapsed_pending_job_is_left_pending parseUTC joinPlain
           [Restart None (fun _ => t0 + 3600 * second);
            Tick (t0 + 3600 * second)] state1 job1 t0 (t0 + 3600 * second)).
  - reflexivity.
  - left. reflexivity.
  - reflexivity.
  - reflexivity.
  - vm_compute. discriminate.
  - unfold Window.elapsed. vm_compute. reflexivity.
Defined.

(** C3, as the spec states it, fails: an hour after the start of a
    thirty-minute job that is still 'pending', the startup pass and a tick
    leave it 'pending'; it is not 'failed'. *)
Lemma elapsed_pending_job_is_not_failed :
  let now := t0 + 3600 * second in
  let s' := run parseUTC joinPlain [Restart None (fun _ => now); Tick now]
                state1 in
  Window.elapsed t0 (Duration job1) now /\
  statusOf (db state1) 1 = Some "pending" /\
  statusOf (db s') 1 = Some "pending" /\
  statusOf (db s') 1 <> Some "failed".
Proof.
  vm_compute. repeat split. discriminate.
Qed.

(** ** Capture worker and status transitions *)

(** C4, as the code has it.  When the capture process exits non-zero or
    cannot be started the worker leaves the store as it is; when it exits
    cleanly the status of the job is set to 'completed', whatever it was, and
    no other job is touched. *)
Theorem worker_writes_completed_on_clean_exit_only
    (Join : string -> string -> string)
    (w : World) (r : Recording) (d : DB) (ch : Channel) :
  findChannel d (ChannelID r) = Some ch ->
  MkdirAll w (STORAGE_DIR w) = true ->
  Create w (logFile Join r) = true ->
  let cmd := ffmpegArgs Join w r ch in
  let d' := fst (startRecording Join w r d) in
  (ffmpeg w cmd <> CleanExit -> d' = d) /\
  (ffmpeg w cmd = CleanExit ->
   forall id, statusOf d' id
              = if id =? ID r
                then option_map (fun _ => "completed") (statusOf d id)
                else statusOf d id).
Proof.
  intros Hch Hmk Hlog cmd d'. unfold d', startRecording.
  rewrite Hch, Hmk, Hlog. cbn [negb]. fold cmd. split.
  - intros Hne. destruct (ffmpeg w cmd); [contradiction| |]; reflexivity.
  - intros ->. cbn [fst]. intros id. apply statusOf_updateCompleted.
Qed.

Lemma worker_writes_completed_on_clean_exit_only_witness :
  let w := world CleanExit NotExist in
  let cmd := ffmpegArgs joinPlain w job1 channel5 in
  let d' := fst (startRecording joinPlain w job1 db1) in
  (ffmpeg w cmd <> CleanExit -> d' = db1) /\
  (ffmpeg w cmd = CleanExit ->
   forall id, statusOf d' id
              = if id =? 1
                then option_map (fun _ => "completed") (statusOf db1 id)
                else statusOf db1 id).
Proof.
  apply (worker_writes_completed_on_clean_exit_only joinPlain
           (world CleanExit NotExist) job1 db1 channel5); reflexivity.
Defined.

(** C4, as the spec states it, fails: after a capture that exits non-zero,
    or that cannot be started, the job is still 'pending', not 'failed'; and
    the clean exit moves it from 'pending', not from 'recording'. *)
Lemma failed_capture_leaves_job_pending :
  statusOf (fst (startRecording joinPlain (world NonZeroExit NotExist) job1 db1)) 1
    = Some "pending" /\
  statusOf (fst (startRecording joinPlain (world CannotStart NotExist) job1 db1)) 1
    = Some "pending" /\
  snd (startRecording joinPlain (world NonZeroExit NotExist) job1 db1)
    = CaptureFailed ["-i"; "http://hdhomerun.local:5004/auto/v5"; "-t"; "1800";
                     "-c"; "copy"; "/data/2026-01-01-19:00-KQED-5.mp4"] /\
  statusOf db1 1 = Some "pending" /\
  statusOf (fst (startRecording joinPlain (world CleanExit NotExist) job1 db1)) 1
    = Some "completed".
Proof.
  vm_compute. repeat split.
Qed.

Section Transitions.

Variable ParseInLocation : string -> option Z.
Variable Join : string -> string -> string.

Lemma statusOf_recordings (d d' : DB) (id : Z) :
  recordings d' = recordings d -> statusOf d' id = statusOf d id.
Proof. unfold statusOf, findRecording. intros ->. reflexivity. Qed.

Lemma startRecording_cases (w : World) (r : Recording) (d : DB) :
  fst (startRecording Join w r d) = d \/
  fst (startRecording Join w r d) = updateCompleted d (ID r).
Proof.
  unfold startRecording.
  destruct (findChannel d (ChannelID r)); [|auto].
  destruct (MkdirAll w (STORAGE_DIR w)); cbn [negb]; [|auto].
  destruct (Create w (logFile Join r)); cbn [negb]; [|auto].
  destruct (ffmpeg w _); auto.
Qed.

Lemma createRecording_cases (method : string)
    (reqBody : option Req.RecordingRequest) (s : State) :
  fst (createRecording method reqBody s) = s \/
  exists req,
    reqBody = Some req /\ 0 < Req.Duration req /\
    channelExists (db s) (Req.ChannelID req) = true /\
    db (fst (createRecording method reqBody s))
    = fst (insertRecording (db s) (Req.ChannelID req) (Req.Date req)
                           (Req.StartTime req) (Req.Duration req) "pending").
Proof.
  unfold createRecording.
  destruct (String.eqb method "POST"); cbn [negb]; [|auto].
  destruct reqBody as [req|]; [|auto].
  destruct (Req.Duration req <=? 0) eqn:Hd; [auto|].
  destruct (channelExists (db s) (Req.ChannelID req)) eqn:Hc; cbn [negb]; [|auto].
  right. exists req. apply Z.leb_gt in Hd. repeat split; auto.
Qed.

Lemma deleteRecording_cases (method idStr : string) (s : State) :
  fst (deleteRecording method idStr s) = s \/
  exists id, db (fst (deleteRecording method idStr s)) = deleteByID (db s) id.
Proof.
  unfold deleteRecording.
  destruct (String.eqb method "DELETE"); cbn [negb]; [|auto].
  destruct (Atoi idStr) as [id|]; [|auto].
  right. exists id. reflexivity.
Qed.

(** What one event can do to the store. *)
Lemma step_cases (e : Event) (s : State) :
  (recordings (db (step ParseInLocation Join e s)) = recordings (db s) /\
   forall k, channelExists (db s) k = true ->
             channelExists (db (step ParseInLocation Join e s)) k = true) \/
  (exists id, db (step ParseInLocation Join e s) = updateCompleted (db s) id) \/
  (exists id, db (step ParseInLocation Join e s) = deleteByID (db s) id) \/
  (exists c dt st dur,
     channelExists (db s) c = true /\
     db (step ParseInLocation Join e s)
     = fst (insertRecording (db s) c dt st dur "pending")).
Proof.
  destruct e as [lineup clock|now| |i w|method reqBody|method idStr|w idStr rh];
    cbn [step].
  - left. split; [apply loadChannels_recordings|].
    intros k. apply loadChannels_exists.
  - left. split; [reflexivity|auto].
  - left. split; [reflexivity|auto].
  - destruct (nth_error (workers s) i) as [r|]; [|left; split; [reflexivity|auto]].
    cbn [db]. destruct (startRecording_cases w r (db s)) as [-> | ->].
    + left. split; [reflexivity|auto].
    + right. left. exists (ID r). reflexivity.
  - destruct (createRecording_cases method reqBody s)
      as [-> | (req & _ & _ & Hc & H)].
    + left. split; [reflexivity|auto].
    + right. right. right. eauto 8.
  - destruct (deleteRecording_cases method idStr s) as [-> | (id & H)].
    + left. split; [reflexivity|auto].
    + right. right. left. eauto.
  - left. split; [reflexivity|auto].
Qed.

(** One event changes the status of a job that stays in the table to
    'completed' or not at all. *)
Lemma step_status (e : Event) (s : State) (id : Z) (x y : string) :
  statusOf (db s) id = Some x ->
  statusOf (db (step ParseInLocation Join e s)) id = Some y ->
  y = x \/ y = "completed".
Proof.
  intros Hx Hy.
  destruct (step_cases e s)
    as [[H _] | [(i & H) | [(i & H) | (c & dt & st & dur & _ & H)]]].
  - rewrite (statusOf_recordings _ _ id H) in Hy. left. congruence.
  - rewrite H, statusOf_updateCompleted, Hx in Hy.
    destruct (id =? i); cbn [option_map] in Hy; [right|left]; congruence.
  - rewrite H, statusOf_delete, Hx in Hy.
    destruct (id =? i); [discriminate|]. left. congruence.
  - rewrite H, (statusOf_insert _ _ _ _ _ _ _ _ Hx) in Hy. left. congruence.
Qed.

Lemma step_storedStatuses (e : Event) (s : State) :
  storedStatuses (db s) -> storedStatuses (db (step ParseInLocation Join e s)).
Proof.
  intros Hs r.
  destruct (step_cases e s)
    as [[H _] | [(i & H) | [(i & H) | (c & dt & st & dur & _ & H)]]];
    rewrite H.
  - apply Hs.
  - unfold updateCompleted. cbn [recordings]. rewrite in_map_iff.
    intros (r0 & <- & Hin). destruct (ID r0 =? i); [right; reflexivity|auto].
  - unfold deleteByID. cbn [recordings]. rewrite filter_In. intros [Hin _]. auto.
  - unfold insertRecording. cbn [fst recordings]. rewrite in_app_iff.
    intros [Hin | [<- | []]]; [auto|left; reflexivity].
Qed.

Lemma step_foreignKeyOK (e : Event) (s : State) :
  foreignKeyOK (db s) -> foreignKeyOK (db (step ParseInLocation Join e s)).
Proof.
  intros Hs.
  destruct (step_cases e s)
    as [[H Hk] | [(i & H) | [(i & H) | (c & dt & st & dur & Hc & H)]]].
  - intros r Hin. rewrite H in Hin. apply Hk, Hs, Hin.
  - rewrite H. intros r. unfold updateCompleted. cbn [recordings].
    rewrite in_map_iff. intros (r0 & <- & Hin). specialize (Hs r0 Hin).
    destruct (ID r0 =? i); exact Hs.
  - rewrite H. intros r. unfold deleteByID. cbn [recordings].
    rewrite filter_In. intros [Hin _]. exact (Hs r Hin).
  - rewrite H. intros r. unfold insertRecording. cbn [fst recordings].
    rewrite in_app_iff. intros [Hin | [<- | []]]; [exact (Hs r Hin)|exact Hc].
Qed.

Lemma run_snoc (evs : list Event) (e : Event) (s : State) :
  run ParseInLocation Join (evs ++ [e]) s
  = step ParseInLocation Join e (run ParseInLocation Join evs s).
Proof. unfold run. rewrite fold_left_app. reflexivity. Qed.

(** Every state the process reaches from a new database stores only
    'pending' and 'completed', and keeps the foreign key. *)
Lemma run_invariants (evs : list Event) :
  storedStatuses (db (run ParseInLocation Join evs boot)) /\
  foreignKeyOK (db (run ParseInLocation Join evs boot)).
Proof.
  induction evs as [|e evs [IH1 IH2]] using rev_ind.
  - split; intros r [].
  - rewrite run_snoc. split.
    + apply step_storedStatuses, IH1.
    + apply step_foreignKeyOK, IH2.
Qed.

End Transitions.

(** C2, as the code has it.  In every state the process reaches from a new
    database a stored status is 'pending' or 'completed', and one event
    changes the status of a job only from 'pending' to 'completed':
    'recording' and 'failed' are never stored. *)
Theorem status_changes_from_pending_to_completed_only
    (ParseInLocation : string -> option Z) (Join : string -> string -> string)
    (evs : list Event) (e : Event) (id : Z) (x y : string) :
  let s := run ParseInLocation Join evs boot in
  statusOf (db s) id = Some x ->
  statusOf (db (step ParseInLocation Join e s)) id = Some y ->
  (x = "pending" \/ x = "completed") /\
  (y = x \/ (x = "pending" /\ y = "completed")).
Proof.
  intros s Hx Hy.
  assert (x = "pending" \/ x = "completed") as Hxs.
  { destruct (run_invariants ParseInLocation Join evs) as [Hinv _].
    fold s in Hinv. unfold statusOf, findRecording in Hx.
    destruct (find _ (recordings (db s))) as [r|] eqn:Hf; [|discriminate].
    injection Hx as <-. apply find_some in Hf as [Hin _]. exact (Hinv r Hin). }
  split; [exact Hxs|].
  destruct (step_status ParseInLocation Join e s id x y Hx Hy) as [-> | ->];
    [left; reflexivity|].
  destruct Hxs as [-> | ->]; [right; split; reflexivity|left; reflexivity].
Qed.

Lemma status_changes_from_pending_to_completed_only_witness :
  let s := run parseUTC joinPlain
               [Restart (Some [channel5]) (fun _ => t0 - 3600 * second);
                CreateRequest "POST" (Some request1);
                Tick (t0 + 30 * second)] boot in
  statusOf (db s) 1 = Some "pending" /\
  statusOf (db (step parseUTC joinPlain
                     (WorkerReturns 0 (world CleanExit NotExist)) s)) 1
    = Some "completed" /\
  ("pending" = "pending" \/ "pending" = "completed") /\
  ("completed" = "pending" \/ ("pending" = "pending" /\ "completed" = "completed")).
Proof.
  split; [reflexivity|]. split; [reflexivity|].
  apply (status_changes_from_pending_to_completed_only parseUTC joinPlain
           [Restart (Some [channel5]) (fun _ => t0 - 3600 * second);
            CreateRequest "POST" (Some request1);
            Tick (t0 + 30 * second)]
           (WorkerReturns 0 (world CleanExit NotExist)) 1
           "pending" "completed"); reflexivity.
Defined.

(** C2, as the spec states it, fails: a job is created, matched by a tick
    and captured; the worker's return moves it from 'pending' to 'completed'
    in one step, and it is never 'recording'. *)
Lemma pending_job_completes_in_one_step :
  let evs := [Restart (Some [channel5]) (fun _ => t0 - 3600 * second);
              CreateRequest "POST" (Some request1);
              Tick (t0 + 30 * second)] in
  let s := run parseUTC joinPlain evs boot in
  let s' := step parseUTC joinPlain
                 (WorkerReturns 0 (world CleanExit NotExist)) s in
  workers s = [job1] /\
  statusOf (db s) 1 = Some "pending" /\
  statusOf (db s') 1 = Some "completed".
Proof.
  vm_compute. repeat split.
Qed.

(** ** File naming *)

Lemma findRecording_updateCompleted (d : DB) (r : Recording) :
  findRecording d (ID r) = Some r ->
  findRecording (updateCompleted d (ID r)) (ID r)
  = Some (setStatus "completed" r).
Proof.
  unfold findRecording, updateCompleted. cbn [recordings].
  induction (recordings d) as [|x rows IH]; cbn [map find]; [discriminate|].
  destruct (ID x =? ID r) eqn:Hx.
  - intros H. injection H as ->. cbn [setStatus ID]. rewrite Z.eqb_refl.
    reflexivity.
  - rewrite Hx. exact IH.
Qed.

(** C9.  The path the worker writes and the path the server resolves for
    the same job are the same string: the file
    [<date>-<startTime>-<channelDisplayName>-<channelId>.mp4] in the storage
    directory. *)
Theorem worker_and_server_paths_agree
    (Join : string -> string -> string)
    (w : World) (d : DB) (r : Recording) (ch : Channel) :
  findRecording d (ID r) = Some r ->
  findChannel d (ChannelID r) = Some ch ->
  let written := outputFile Join w r ch in
  let d' := updateCompleted d (ID r) in
  last (ffmpegArgs Join w r ch) "" = written /\
  queryRecording d' (ID r) = Row (setStatus "completed" r) (GuideName ch) /\
  filePath Join w (setStatus "completed" r) (GuideName ch) = written /\
  filePath Join w r (GuideName ch) = written /\
  written = Join (STORAGE_DIR w)
                 (fileName (Date r) (StartTime r) (GuideName ch) (ChannelID r)).
Proof.
  intros Hr Hch written d'.
  pose proof (findChannel_key _ _ _ Hch) as Hkey.
  assert (written = Join (STORAGE_DIR w)
            (fileName (Date r) (StartTime r) (GuideName ch) (ChannelID r))) as Hw.
  { unfold written, outputFile, fileName. rewrite Hkey. reflexivity. }
  split; [reflexivity|]. split.
  { unfold queryRecording, d'. rewrite (findRecording_updateCompleted d r Hr).
    cbn [setStatus ChannelID]. unfold findChannel, updateCompleted.
    cbn [channels]. fold (findChannel d (ChannelID r)). rewrite Hch. reflexivity. }
  split; [rewrite Hw; reflexivity|]. split; [rewrite Hw; reflexivity|exact Hw].
Qed.

Lemma worker_and_server_paths_agree_witness :
  let w := world CleanExit NotExist in
  let written := outputFile joinPlain w job1 channel5 in
  let d' := updateCompleted db1 1 in
  last (ffmpegArgs joinPlain w job1 channel5) "" = written /\
  queryRecording d' 1 = Row (setStatus "completed" job1) "KQED" /\
  filePath joinPlain w (setStatus "completed" job1) "KQED" = written /\
  filePath joinPlain w job1 "KQED" = written /\
  written = joinPlain "/data" (fileName "2026-01-01" "19:00" "KQED" "5").
Proof.
  apply (worker_and_server_paths_agree joinPlain (world CleanExit NotExist)
           db1 job1 channel5); reflexivity.
Defined.

(** ** Media server *)

Section Fetch.

Variable Join : string -> string -> string.
Variable Base : string -> string.

(** The error cases of a fetch on a store that keeps the foreign key. *)
Lemma fetch_errors (w : World) (d : DB) (idStr rangeHeader : string) (id : Z) :
  foreignKeyOK d ->
  Atoi idStr = Some id ->
  let resp := getRecordingFile Join Base w d idStr rangeHeader in
  (statusOf d id = None -> status resp = 404) /\
  (forall x, statusOf d id = Some x -> x <> "completed" -> status resp = 403) /\
  (forall r c, findRecording d id = Some r -> Status r = "completed" ->
               findChannel d (ChannelID r) = Some c ->
               Stat w (filePath Join w r (GuideName c)) = NotExist ->
               status resp = 404).
Proof.
  intros Hfk Hid resp. unfold resp, getRecordingFile, queryRecording, statusOf.
  rewrite Hid. repeat split.
  - destruct (findRecording d id); [discriminate|reflexivity].
  - intros x Hx Hne.
    destruct (findRecording d id) as [r|] eqn:Hr; [|discriminate].
    injection Hx as <-.
    assert (In r (recordings d)) as Hin by (apply find_some in Hr; tauto).
    destruct (channelExists_find d _ (Hfk r Hin)) as (c & -> & _).
    apply String.eqb_neq in Hne. rewrite Hne. reflexivity.
  - intros r c -> Hst -> Hstat. apply String.eqb_eq in Hst.
    rewrite Hst. cbn [negb]. rewrite Hstat. reflexivity.
Qed.

(** A fetch of a completed job whose file is on disk answers from the file
    alone. *)
Lemma fetch_completed (w : World) (d : DB) (idStr rangeHeader : string)
    (id : Z) (r : Recording) (c : Channel) (content : list Byte.byte) :
  Atoi idStr = Some id ->
  findRecording d id = Some r ->
  Status r = "completed" ->
  findChannel d (ChannelID r) = Some c ->
  Stat w (filePath Join w r (GuideName c)) = Regular content ->
  getRecordingFile Join Base w d idStr rangeHeader
  = if String.eqb rangeHeader ""
    then serveFull Base (filePath Join w r (GuideName c)) content
    else serveRange rangeHeader content.
Proof.
  intros Hid Hr Hst Hc Hstat. unfold getRecordingFile, queryRecording.
  rewrite Hid, Hr, Hc. apply String.eqb_eq in Hst. rewrite Hst. cbn [negb].
  rewrite Hstat. destruct (String.eqb rangeHeader ""); reflexivity.
Qed.

Lemma rangeAnswer_window (A B : Z) (content : list Byte.byte) :
  0 <= A <= B -> B < Z.of_nat (List.length content) ->
  rangeAnswer A B content = partialContent A B content.
Proof.
  intros HAB HB. unfold rangeAnswer, partialContent, window.
  destruct (A <? 0) eqn:H1; [apply Z.ltb_lt in H1; lia|].
  destruct (Z.of_nat (List.length content) <=? B) eqn:H2;
    [apply Z.leb_le in H2; lia|].
  destruct (B <? A) eqn:H3; [apply Z.ltb_lt in H3; lia|].
  cbn [orb]. rewrite firstn_skipn_window by lia. reflexivity.
Qed.

End Fetch.

(** C8.  In every state the process reaches, a fetch of an id that is not
    in the store answers 404, of a job that is not 'completed' answers 403,
    of a 'completed' job whose file is not on disk answers 404; and a fetch
    changes nothing. *)
Theorem fetch_classifies_errors
    (ParseInLocation : string -> option Z)
    (Join : string -> string -> string) (Base : string -> string)
    (evs : list Event) (w : World) (idStr rangeHeader : string) (id : Z) :
  Atoi idStr = Some id ->
  let s := run ParseInLocation Join evs boot in
  let resp := getRecordingFile Join Base w (db s) idStr rangeHeader in
  (statusOf (db s) id = None -> status resp = 404) /\
  (forall x, statusOf (db s) id = Some x -> x <> "completed" ->
             status resp = 403) /\
  (forall r c, findRecording (db s) id = Some r -> Status r = "completed" ->
               findChannel (db s) (ChannelID r) = Some c ->
               Stat w (filePath Join w r (GuideName c)) = NotExist ->
               status resp = 404) /\
  step ParseInLocation Join (FileRequest w idStr rangeHeader) s = s.
Proof.
  intros Hid s resp.
  destruct (run_invariants ParseInLocation Join evs) as [_ Hfk]. fold s in Hfk.
  destruct (fetch_errors Join Base w (db s) idStr rangeHeader id Hfk Hid)
    as (H1 & H2 & H3).
  repeat split; assumption.
Qed.

Lemma fetch_classifies_errors_witness :
  let s := run parseUTC joinPlain
               [Restart (Some [channel5]) (fun _ => t0 - 3600 * second);
                CreateRequest "POST" (Some request1)] boot in
  let w := world CleanExit NotExist in
  let resp := getRecordingFile joinPlain basePlain w (db s) "1" "" in
  (statusOf (db s) 1 = None -> status resp = 404) /\
  (forall x, statusOf (db s) 1 = Some x -> x <> "completed" ->
             status resp = 403) /\
  (forall r c, findRecording (db s) 1 = Some r -> Status r = "completed" ->
               findChannel (db s) (ChannelID r) = Some c ->
               Stat w (filePath joinPlain w r (GuideName c)) = NotExist ->
               status resp = 404) /\
  step parseUTC joinPlain (FileRequest w "1" "") s = s.
Proof.
  apply (fetch_classifies_errors parseUTC joinPlain basePlain
           [Restart (Some [channel5]) (fun _ => t0 - 3600 * second);
            CreateRequest "POST" (Some request1)]
           (world CleanExit NotExist) "1" "" 1).
  reflexivity.
Defined.

(** The cases of C8 on the small installation: an unknown id, a pending job,
    a completed job without its file. *)
Example fetch_error_samples :
  status (getRecordingFile joinPlain basePlain (world CleanExit NotExist)
            db1 "2" "") = 404 /\
  status (getRecordingFile joinPlain basePlain (world CleanExit NotExist)
            db1 "1" "") = 403 /\
  status (getRecordingFile joinPlain basePlain (world CleanExit NotExist)
            db1done "1" "") = 404.
Proof. repeat split; reflexivity. Qed.

(** C6.  For a completed job whose file of size [S] is on disk and a range
    [bytes=A-B], or [bytes=A-] with [B = S - 1], where [0 <= A <= B < S],
    the fetch answers 206 with [Content-Range: bytes A-B/S],
    [Content-Length: B-A+1], [Accept-Ranges: bytes] and the bytes [A]
    through [B] of the file, [B-A+1] of them. *)
Theorem range_request_serves_window
    (Join : string -> string -> string) (Base : string -> string)
    (w : World) (d : DB) (idStr : string) (id : Z) (r : Recording)
    (c : Channel) (content : list Byte.byte) (A B : Z) :
  Atoi idStr = Some id ->
  findRecording d id = Some r ->
  Status r = "completed" ->
  findChannel d (ChannelID r) = Some c ->
  Stat w (filePath Join w r (GuideName c)) = Regular content ->
  Z.of_nat (List.length content) <= int64_max ->
  0 <= A <= B ->
  B < Z.of_nat (List.length content) ->
  getRecordingFile Join Base w d idStr
    ("bytes=" ++ FormatInt A ++ "-" ++ FormatInt B)
  = partialContent A B content /\
  (B = Z.of_nat (List.length content) - 1 ->
   getRecordingFile Join Base w d idStr ("bytes=" ++ FormatInt A ++ "-")
   = partialContent A B content) /\
  Z.of_nat (List.length (window A B content)) = B - A + 1.
Proof.
  intros Hid Hr Hst Hc Hstat Hsize HAB HB.
  unfold int64_max in Hsize.
  destruct (ParseInt_FormatInt A ltac:(lia)) as [HpA HdA].
  destruct (ParseInt_FormatInt B ltac:(lia)) as [HpB HdB].
  split; [|split].
  - rewrite (fetch_completed Join Base w d idStr _ id r c content Hid Hr Hst Hc Hstat).
    change (String.eqb ("bytes=" ++ FormatInt A ++ "-" ++ FormatInt B) "")
      with false. cbv iota.
    rewrite (serveRange_of_form _ A (Some B)).
    + apply rangeAnswer_window; assumption.
    + apply FormSpec, FormClosed; apply literal_ParseInt; split; assumption.
  - intros HBS.
    rewrite (fetch_completed Join Base w d idStr _ id r c content Hid Hr Hst Hc Hstat).
    change (String.eqb ("bytes=" ++ FormatInt A ++ "-") "") with false. cbv iota.
    rewrite (serveRange_of_form _ A None).
    + cbn [lastByte]. rewrite <- HBS. apply rangeAnswer_window; assumption.
    + apply FormSpec, FormOpen, literal_ParseInt; split; assumption.
  - unfold window. rewrite length_map, length_seq. lia.
Qed.

Lemma range_request_serves_window_witness :
  getRecordingFile joinPlain basePlain (world CleanExit (Regular file1000))
    db1done "1" ("bytes=" ++ FormatInt 0 ++ "-" ++ FormatInt 99)
  = partialContent 0 99 file1000 /\
  (99 = Z.of_nat (List.length file1000) - 1 ->
   getRecordingFile joinPlain basePlain (world CleanExit (Regular file1000))
     db1done "1" ("bytes=" ++ FormatInt 0 ++ "-")
   = partialContent 0 99 file1000) /\
  Z.of_nat (List.length (window 0 99 file1000)) = 99 - 0 + 1.
Proof.
  apply (range_request_serves_window joinPlain basePlain
           (world CleanExit (Regular file1000)) db1done "1" 1 job1done
           channel5 file1000 0 99).
  - reflexivity.
  - reflexivity.
  - reflexivity.
  - reflexivity.
  - reflexivity.
  - vm_compute. discriminate.
  - lia.
  - vm_compute. reflexivity.
Defined.

(** The range cases the spec lists: [bytes=0-99] and [bytes=500-] on a file
    of 1000 bytes, [bytes=900-1000] on it, and [bytes=abc-10]. *)
Example range_samples :
  serveRange "bytes=0-99" file1000 = partialContent 0 99 file1000 /\
  headers (serveRange "bytes=0-99" file1000)
  = [("Content-Range", "bytes 0-99/1000"); ("Content-Length", "100");
     ("Accept-Ranges", "bytes")] /\
  serveRange "bytes=500-" file1000 = partialContent 500 999 file1000 /\
  status (serveRange "bytes=900-1000" file1000) = 416 /\
  status (serveRange "bytes=abc-10" file1000) = 400.
Proof. vm_compute. repeat split. Qed.

Lemma RangeForm_start_nonneg (h : string) (A : Z) (B : option Z) :
  RangeForm h A B -> 0 <= A.
Proof.
  intros [h' A' B' [a b A0 B0 La _ | a A0 La] | a A0 La];
    apply literal_ParseInt in La as [Ha Hda];
    destruct (ParseInt_shape _ _ Ha) as (_ & _ & H); apply H, Hda.
Qed.

Lemma SpecForm_has_dash (h : string) (A : Z) (B : option Z) :
  SpecForm h A B -> contains "-" h = true.
Proof.
  intros [a b A0 B0 _ _ | a A0 _];
    rewrite !contains_append; cbn [contains]; rewrite Ascii.eqb_refl;
    cbn [orb]; rewrite orb_true_r; reflexivity.
Qed.

Lemma rangeAnswer_status (A B : Z) (content : list Byte.byte) :
  0 <= A ->
  let S := Z.of_nat (List.length content) in
  (status (rangeAnswer A B content) = 416 <-> (A > B \/ B >= S)) /\
  (status (rangeAnswer A B content) = 206 <-> A <= B < S) /\
  status (rangeAnswer A B content) <> 400.
Proof.
  intros HA S. unfold rangeAnswer. fold S.
  destruct (A <? 0) eqn:H1; [apply Z.ltb_lt in H1; lia|].
  destruct (S <=? B) eqn:H2; destruct (B <? A) eqn:H3;
    cbn [orb httpError status];
    try apply Z.leb_le in H2; try apply Z.leb_gt in H2;
    try apply Z.ltb_lt in H3; try apply Z.ltb_ge in H3;
    (split; [|split]); try discriminate; split; intros H;
    try discriminate H; try reflexivity; lia.
Qed.

(** C7, as the code has it.  The parser answers 400 to every header that is
    not [bytes=A-B], [bytes=A-] or the dash-less [bytes=A], with [A] and [B]
    written in digits (an optional ['+'] in front) and below [2^63]; it reads
    [bytes=A] as [bytes=A-]; to a header of these forms it answers 416 when
    [A > B] or [B >= fileSize], and 206 otherwise. *)
Theorem range_parser_rejections (h : string) (content : list Byte.byte) :
  let S := Z.of_nat (List.length content) in
  let resp := serveRange h content in
  (status resp = 400 <-> ~ exists A B, RangeForm h A B) /\
  (forall A B, RangeForm h A B ->
     (status resp = 416 <-> (A > lastByte B S \/ lastByte B S >= S)) /\
     (status resp = 206 <-> A <= lastByte B S < S)).
Proof.
  intros S resp. split.
  - split.
    + intros H400 (A & B & Hform).
      unfold resp in H400. rewrite (serveRange_of_form h A B content Hform) in H400.
      pose proof (RangeForm_start_nonneg h A B Hform) as HA.
      destruct (rangeAnswer_status A (lastByte B S) content HA) as (_ & _ & Hne).
      exact (Hne H400).
    + intros Hno. destruct (serveRange_rejects_or_form h content) as [H | H].
      * unfold resp. rewrite H. reflexivity.
      * contradiction.
  - intros A B Hform. unfold resp.
    rewrite (serveRange_of_form h A B content Hform).
    pose proof (RangeForm_start_nonneg h A B Hform) as HA.
    destruct (rangeAnswer_status A (lastByte B S) content HA) as (H1 & H2 & _).
    split; assumption.
Qed.

(** C7, as the spec states it, fails: the header [bytes=5] is neither
    [bytes=A-B] nor [bytes=A-], and it is not rejected: on a file of ten
    bytes it is served as [bytes=5-9]. *)
Lemma dashless_range_is_served :
  (~ exists A B, SpecForm "bytes=5" A B) /\
  status (serveRange "bytes=5" file10) = 206 /\
  getRecordingFile joinPlain basePlain (world CleanExit (Regular file10))
    db1done "1" "bytes=5"
  = partialContent 5 9 file10.
Proof.
  split.
  - intros (A & B & H). apply SpecForm_has_dash in H. discriminate H.
  - split; reflexivity.
Qed.

(** ** Create *)

Lemma find_app_none {A : Type} (f : A -> bool) (l l' : list A) :
  find f l = None -> find f (l ++ l') = find f l'.
Proof.
  induction l as [|y l IH]; cbn [find app]; [reflexivity|].
  destruct (f y); [discriminate|exact IH].
Qed.

(** C10, as the code has it.  A create request whose body decodes is
    answered 400 exactly when [duration <= 0], 404 exactly when
    [duration > 0] and the channel is not in [channels], and in both cases
    nothing changes; every other request, whatever its date and start time,
    appends one row with status 'pending' under an id no row has, and is
    answered 201 with that row. *)
Theorem create_checks_duration_then_channel
    (req : Req.RecordingRequest) (s : State) :
  let resp := snd (createRecording "POST" (Some req) s) in
  let s' := fst (createRecording "POST" (Some req) s) in
  let row := mkRecording (nextID (db s)) (Req.ChannelID req) (Req.Date req)
                         (Req.StartTime req) (Req.Duration req) "pending" in
  (status resp = 400 <-> Req.Duration req <= 0) /\
  (status resp = 404 <->
   0 < Req.Duration req /\ channelExists (db s) (Req.ChannelID req) = false) /\
  (status resp = 400 \/ status resp = 404 -> s' = s) /\
  (0 < Req.Duration req ->
   channelExists (db s) (Req.ChannelID req) = true ->
   resp = mkResponse 201 [("Content-Type", "application/json")]
                     (JsonRecording row) /\
   recordings (db s') = (recordings (db s) ++ [row])%list /\
   channels (db s') = channels (db s) /\
   findRecording (db s) (ID row) = None /\
   findRecording (db s') (ID row) = Some row).
Proof.
  intros resp s' row. unfold resp, s', createRecording.
  cbn [String.eqb Ascii.eqb Bool.eqb negb].
  destruct (Req.Duration req <=? 0) eqn:Hd.
  - apply Z.leb_le in Hd. cbn [fst snd jsonError status].
    repeat split; try lia; try discriminate; auto.
  - apply Z.leb_gt in Hd.
    destruct (channelExists (db s) (Req.ChannelID req)) eqn:Hc; cbn [negb].
    + cbn [insertRecording ChannelID Date StartTime Duration Status
           withID fst snd status db recordings channels ID].
      repeat split; try lia; try discriminate.
      * apply nextID_fresh.
      * unfold row, findRecording. cbn [recordings ID].
        pose proof (nextID_fresh (db s)) as Hf. unfold findRecording in Hf.
        rewrite (find_app_none _ _ _ Hf). cbn [find ID].
        rewrite Z.eqb_refl. reflexivity.
    + cbn [fst snd jsonError status].
      repeat split; try lia; try discriminate; auto.
Qed.

(** C10, as the spec states it, fails: with [duration = 0] and a channel
    that is not in [channels] the answer is 400, not 404. *)
Lemma bad_duration_hides_unknown_channel :
  let req := Req.mk "nope" "2026-01-01" "19:00" 0 in
  channelExists (db state1) (Req.ChannelID req) = false /\
  status (snd (createRecording "POST" (Some req) state1)) = 400 /\
  status (snd (createRecording "POST" (Some req) state1)) <> 404.
Proof.
  vm_compute. repeat split. discriminate.
Qed.

(** The cases of C10 on the small installation, with a date and a start time
    that are not a date and a time. *)
Example create_samples :
  status (snd (createRecording "POST" (Some (Req.mk "5" "someday" "noon" 30))
                 state1)) = 201 /\
  recordings (db (fst (createRecording "POST"
                         (Some (Req.mk "5" "someday" "noon" 30)) state1)))
  = [job1; mkRecording 2 "5" "someday" "noon" 30 "pending"] /\
  status (snd (createRecording "POST" (Some (Req.mk "nope" "someday" "noon" 30))
                 state1)) = 404 /\
  status (snd (createRecording "POST" (Some (Req.mk "5" "someday" "noon" (-1)))
                 state1)) = 400.
Proof. vm_compute. repeat split. Qed.

(** The scenario of the spec: the job starts at 19:00, the tick comes thirty
    seconds later, the capture runs for 1800 seconds, and after a clean exit
    the job is 'completed' and its file is served from the path the worker
    wrote. *)
Example scenario :
  let s1 := tick parseUTC (t0 + 30 * second) state1 in
  let out := startRecording joinPlain (world CleanExit NotExist) job1 (db s1) in
  workers s1 = [job1] /\
  snd out = CaptureDone ["-i"; "http://hdhomerun.local:5004/auto/v5";
                         "-t"; "1800"; "-c"; "copy"; path1] /\
  statusOf (fst out) 1 = Some "completed" /\
  status (getRecordingFile joinPlain basePlain
            (world CleanExit (Regular file10)) (fst out) "1" "") = 200.
Proof. vm_compute. repeat split. Qed.

(** ** More on the media server *)

(** X1.  Without a range header, a completed job whose file is on disk is
    served whole: status 200, the four headers of a download with the file
    size as [Content-Length], and the bytes of the file as the body; the
    [Content-Length] reads back as the number of bytes sent. *)
Theorem full_file_is_served_whole
    (Join : string -> string -> string) (Base : string -> string)
    (w : World) (d : DB) (idStr : string) (id : Z) (r : Recording)
    (c : Channel) (content : list Byte.byte) :
  Atoi idStr = Some id ->
  findRecording d id = Some r ->
  Status r = "completed" ->
  findChannel d (ChannelID r) = Some c ->
  Stat w (filePath Join w r (GuideName c)) = Regular content ->
  Z.of_nat (List.length content) <= int64_max ->
  let resp := getRecordingFile Join Base w d idStr "" in
  status resp = 200 /\
  body resp = Bytes content /\
  headers resp
  = [("Content-Disposition",
      "attachment; filename=" ++ Base (filePath Join w r (GuideName c)));
     ("Content-Type", "video/mp4");
     ("Content-Length", FormatInt (Z.of_nat (List.length content)));
     ("Accept-Ranges", "bytes")] /\
  ParseInt (FormatInt (Z.of_nat (List.length content)))
  = Some (Z.of_nat (List.length content)).
Proof.
  intros Hid Hr Hst Hc Hstat Hsize resp. unfold resp.
  rewrite (fetch_completed Join Base w d idStr "" id r c content Hid Hr Hst Hc Hstat).
  cbn [String.eqb serveFull status body headers].
  repeat split. apply ParseInt_FormatInt. unfold int64_max in Hsize. lia.
Qed.

Lemma full_file_is_served_whole_witness :
  let w := world CleanExit (Regular file1000) in
  let resp := getRecordingFile joinPlain basePlain w db1done "1" "" in
  status resp = 200 /\
  body resp = Bytes file1000 /\
  headers resp
  = [("Content-Disposition",
      "attachment; filename="
        ++ basePlain (filePath joinPlain w job1done (GuideName channel5)));
     ("Content-Type", "video/mp4");
     ("Content-Length", FormatInt (Z.of_nat (List.length file1000)));
     ("Accept-Ranges", "bytes")] /\
  ParseInt (FormatInt (Z.of_nat (List.length file1000)))
  = Some (Z.of_nat (List.length file1000)).
Proof.
  apply (full_file_is_served_whole joinPlain basePlain
           (world CleanExit (Regular file1000)) db1done "1" 1 job1done
           channel5 file1000).
  - reflexivity.
  - reflexivity.
  - reflexivity.
  - reflexivity.
  - reflexivity.
  - vm_compute. discriminate.
Defined.

Lemma serveRange_206_window (h : string) (content : list Byte.byte) :
  status (serveRange h content) = 206 ->
  exists A B,
    0 <= A <= B /\ B < Z.of_nat (List.length content) /\
    serveRange h content = partialContent A B content.
Proof.
  intros H206.
  set (size := Z.of_nat (List.length content)).
  destruct (serveRange_rejects_or_form h content) as [H | (A & B & Hform)].
  - rewrite H in H206. discriminate H206.
  - pose proof (RangeForm_start_nonneg h A B Hform) as HA.
    rewrite (serveRange_of_form h A B content Hform) in *.
    destruct (rangeAnswer_status A (lastByte B size) content HA) as (_ & H2 & _).
    apply H2 in H206. fold size in H206.
    exists A, (lastByte B size). split; [lia|]. split; [lia|].
    apply rangeAnswer_window; lia.
Qed.

(** X2.  Whatever the range header, a 206 answer is the partial response for
    some window [A..B] inside the file: its body is those bytes of the file
    and nothing else, and its [Content-Length] is their number. *)
Theorem partial_response_is_a_window_of_the_file
    (h : string) (content : list Byte.byte) :
  status (serveRange h content) = 206 ->
  exists A B,
    0 <= A <= B /\ B < Z.of_nat (List.length content) /\
    serveRange h content = partialContent A B content /\
    Z.of_nat (List.length (window A B content)) = B - A + 1.
Proof.
  intros H206.
  destruct (serveRange_206_window h content H206) as (A & B & HAB & HB & E).
  exists A, B. repeat split; try lia; try assumption.
  unfold window. rewrite length_map, length_seq. lia.
Qed.

Lemma partial_response_is_a_window_of_the_file_witness :
  exists A B,
    0 <= A <= B /\ B < Z.of_nat (List.length file10) /\
    serveRange "bytes=+2-5" file10 = partialContent A B file10 /\
    Z.of_nat (List.length (window A B file10)) = B - A + 1.
Proof.
  apply (partial_response_is_a_window_of_the_file "bytes=+2-5" file10).
  reflexivity.
Defined.

Lemma isDigit_not_comma (c : ascii) :
  isDigit c = true -> Ascii.eqb c "," = false.
Proof.
  destruct c as [[] [] [] [] [] [] [] []]; vm_compute; intros H;
    (discriminate H || reflexivity).
Qed.

Lemma allDigits_no_comma (s : string) :
  allDigits s = true -> contains "," s = false.
Proof.
  induction s as [|c s IH]; cbn [allDigits contains]; [reflexivity|].
  intros H. apply andb_true_iff in H as [Hc Hs].
  rewrite (isDigit_not_comma c Hc), (IH Hs). reflexivity.
Qed.

Lemma literal_no_comma (s : string) (n : Z) :
  literal s n -> contains "," s = false.
Proof.
  intros (ds & [-> | ->] & _ & Hall & _).
  - apply allDigits_no_comma, Hall.
  - rewrite contains_cons. apply allDigits_no_comma in Hall. rewrite Hall.
    reflexivity.
Qed.

Lemma RangeForm_no_comma (h : string) (A : Z) (B : option Z) :
  RangeForm h A B -> contains "," h = false.
Proof.
  intros [h' A' B' [a b A0 B0 La Lb | a A0 La] | a A0 La];
    apply literal_no_comma in La; try apply literal_no_comma in Lb;
    rewrite !contains_append; cbn [contains Ascii.eqb Bool.eqb orb];
    rewrite ?La, ?Lb; reflexivity.
Qed.

(** X3.  A range header with a comma in it, so every multi-range request, is
    rejected with 400. *)
Theorem multi_range_is_rejected (h : string) (content : list Byte.byte) :
  contains "," h = true ->
  serveRange h content = httpError (Plain "Invalid range header") 400.
Proof.
  intros Hcomma.
  destruct (serveRange_rejects_or_form h content) as [H | (A & B & Hform)];
    [exact H|].
  apply RangeForm_no_comma in Hform. congruence.
Qed.

Lemma multi_range_is_rejected_witness :
  serveRange "bytes=0-1,5-6" file10
  = httpError (Plain "Invalid range header") 400.
Proof.
  apply (multi_range_is_rejected "bytes=0-1,5-6" file10). reflexivity.
Defined.

(** X4.  The fetch never sends file bytes for a job that is not 'completed':
    a 200 or 206 answer means that the id is a number, that the job exists
    with status 'completed', that its channel is known and that its file is
    on disk; the body is then that file, or a window of it. *)
Theorem file_is_served_only_for_a_completed_job
    (Join : string -> string -> string) (Base : string -> string)
    (w : World) (d : DB) (idStr rangeHeader : string) :
  let resp := getRecordingFile Join Base w d idStr rangeHeader in
  status resp = 200 \/ status resp = 206 ->
  exists id r c content,
    Atoi idStr = Some id /\
    findRecording d id = Some r /\
    Status r = "completed" /\
    findChannel d (ChannelID r) = Some c /\
    Stat w (filePath Join w r (GuideName c)) = Regular content /\
    (body resp = Bytes content \/
     exists A B, 0 <= A <= B /\ B < Z.of_nat (List.length content) /\
                 body resp = Bytes (window A B content)).
Proof.
  intros resp H. unfold resp in *. clear resp.
  unfold getRecordingFile, queryRecording in *.
  destruct (Atoi idStr) as [id|]; [|cbn in H; lia].
  destruct (findRecording d id) as [r|] eqn:Hr; [|cbn in H; lia].
  destruct (findChannel d (ChannelID r)) as [c|] eqn:Hc; [|cbn in H; lia].
  destruct (String.eqb (Status r) "completed") eqn:Hst; cbn [negb] in *;
    [|cbn in H; lia].
  apply String.eqb_eq in Hst.
  destruct (Stat w (filePath Join w r (GuideName c))) as [| | |content] eqn:Hstat;
    try (cbn in H; lia).
  exists id, r, c, content. repeat (split; [auto; fail|]).
  destruct (String.eqb rangeHeader ""); cbn [negb] in *.
  - left. reflexivity.
  - right. destruct H as [H | H].
    + exfalso.
      destruct (serveRange_rejects_or_form rangeHeader content)
        as [E | (A & B & Hform)].
      * rewrite E in H. discriminate H.
      * pose proof (RangeForm_start_nonneg _ _ _ Hform) as HA.
        rewrite (serveRange_of_form _ A B content Hform) in H.
        unfold rangeAnswer in H.
        destruct ((A <? 0) || _ || _); discriminate H.
    + destruct (serveRange_206_window rangeHeader content H)
        as (A & B & HAB & HB & E).
      exists A, B. rewrite E. repeat split; try lia.
Qed.

Lemma file_is_served_only_for_a_completed_job_witness :
  let w := world CleanExit (Regular file10) in
  let resp := getRecordingFile joinPlain basePlain w db1done "1" "bytes=2-5" in
  exists id r c content,
    Atoi "1" = Some id /\
    findRecording db1done id = Some r /\
    Status r = "completed" /\
    findChannel db1done (ChannelID r) = Some c /\
    Stat w (filePath joinPlain w r (GuideName c)) = Regular content /\
    (body resp = Bytes content \/
     exists A B, 0 <= A <= B /\ B < Z.of_nat (List.length content) /\
                 body resp = Bytes (window A B content)).
Proof.
  apply (file_is_served_only_for_a_completed_job joinPlain basePlain
           (world CleanExit (Regular file10)) db1done "1" "bytes=2-5").
  right. reflexivity.
Defined.

(** ** More on the store *)

Section StoreInvariants.

Variable ParseInLocation : string -> option Z.
Variable Join : string -> string -> string.

Lemma DB_eta (d : DB) : mkDB (channels d) (recordings d) (seq d) = d.
Proof. destruct d; reflexivity. Qed.

Lemma insertChannelOrIgnore_seq (d : DB) (c : Channel) :
  seq (insertChannelOrIgnore d c) = seq d.
Proof.
  unfold insertChannelOrIgnore. destruct (channelExists d (GuideNumber c));
    reflexivity.
Qed.

Lemma loadChannels_seq (lineup : option (list Channel)) (d : DB) :
  seq (loadChannels lineup d) = seq d.
Proof.
  destruct lineup as [chs|]; [|reflexivity]. cbn [loadChannels].
  revert d. induction chs as [|c chs IH]; intros d; [reflexivity|].
  cbn [fold_left]. rewrite IH. apply insertChannelOrIgnore_seq.
Qed.

(** What one event can do to the jobs and to the id counter. *)
Lemma step_store (e : Event) (s : State) :
  (recordings (db (step ParseInLocation Join e s)) = recordings (db s) /\
   seq (db (step ParseInLocation Join e s)) = seq (db s)) \/
  (exists id, db (step ParseInLocation Join e s) = updateCompleted (db s) id) \/
  (exists id, db (step ParseInLocation Join e s) = deleteByID (db s) id) \/
  (exists c dt st dur,
     db (step ParseInLocation Join e s)
     = fst (insertRecording (db s) c dt st dur "pending")).
Proof.
  destruct e as [lineup clock|now| |i w|method reqBody|method idStr|w idStr rh];
    cbn [step].
  - left. split; [apply loadChannels_recordings|apply loadChannels_seq].
  - left. split; reflexivity.
  - left. split; reflexivity.
  - destruct (nth_error (workers s) i) as [r|]; [|left; split; reflexivity].
    cbn [db]. destruct (startRecording_cases Join w r (db s)) as [-> | ->].
    + left. split; reflexivity.
    + right. left. exists (ID r). reflexivity.
  - destruct (createRecording_cases method reqBody s)
      as [-> | (req & _ & _ & _ & H)].
    + left. split; reflexivity.
    + right. right. right. eauto 8.
  - destruct (deleteRecording_cases method idStr s) as [-> | (id & H)].
    + left. split; reflexivity.
    + right. right. left. eauto.
  - left. split; reflexivity.
Qed.

Lemma nextID_above (d : DB) :
  seq d < nextID d /\ forall r, In r (recordings d) -> ID r < nextID d.
Proof.
  unfold nextID. split; [lia|]. intros r Hin.
  pose proof (maxID_bound _ _ Hin). lia.
Qed.

Lemma map_ID_updateCompleted (d : DB) (id : Z) :
  map ID (recordings (updateCompleted d id)) = map ID (recordings d).
Proof.
  unfold updateCompleted. cbn [recordings]. rewrite map_map.
  apply map_ext. intros r. destruct (ID r =? id); reflexivity.
Qed.

Lemma filter_keeps_distinct_keys {Row Key : Type} (key : Row -> Key)
    (keep : Row -> bool) (rows : list Row) :
  NoDup (map key rows) -> NoDup (map key (filter keep rows)).
Proof.
  induction rows as [|row rows IH]; cbn [map filter]; [auto|].
  intros Hnd. apply NoDup_cons_iff in Hnd as [Hfresh Hrest].
  destruct (keep row); cbn [map]; [|auto].
  apply NoDup_cons; [|auto]. intros Hin. apply Hfresh.
  apply in_map_iff in Hin as (other & Hkey & Hother).
  apply filter_In in Hother as [Hother _].
  apply in_map_iff. exists other. auto.
Qed.

Lemma step_idsOK (e : Event) (s : State) :
  idsOK (db s) ->
  idsOK (db (step ParseInLocation Join e s)) /\
  seq (db s) <= seq (db (step ParseInLocation Join e s)).
Proof.
  intros [Hnd Hle].
  destruct (step_store e s)
    as [[Hr Hs] | [(i & H) | [(i & H) | (c & dt & st & dur & H)]]].
  - rewrite Hs. split; [|lia]. split; rewrite Hr; [exact Hnd|].
    intros r Hin. rewrite Hs. auto.
  - rewrite H. split; [|cbn [updateCompleted seq]; lia]. split.
    + rewrite map_ID_updateCompleted. exact Hnd.
    + intros r Hin. cbn [updateCompleted seq recordings] in *.
      apply in_map_iff in Hin as (r0 & <- & Hin0). specialize (Hle r0 Hin0).
      destruct (ID r0 =? i); exact Hle.
  - rewrite H. split; [|cbn [deleteByID seq]; lia]. split.
    + cbn [deleteByID recordings]. apply filter_keeps_distinct_keys, Hnd.
    + intros r Hin. cbn [deleteByID seq recordings] in *.
      apply filter_In in Hin as [Hin _]. auto.
  - rewrite H. destruct (nextID_above (db s)) as [Hseq Hids].
    unfold idsOK. cbn [insertRecording fst seq recordings].
    split; [|lia]. split.
    + rewrite map_app. cbn [map ID].
      apply NoDup_app; [exact Hnd|repeat constructor; intros []|].
      intros x Hx [<- | []]. apply in_map_iff in Hx as (r & Hr & Hin).
      specialize (Hids r Hin). lia.
    + intros r Hin. apply in_app_iff in Hin as [Hin | [<- | []]].
      * specialize (Hids r Hin). lia.
      * cbn [ID]. lia.
Qed.

Lemma run_app (evs1 evs2 : list Event) (s : State) :
  run ParseInLocation Join (evs1 ++ evs2) s
  = run ParseInLocation Join evs2 (run ParseInLocation Join evs1 s).
Proof. unfold run. apply fold_left_app. Qed.

Lemma run_idsOK (evs : list Event) (s : State) :
  idsOK (db s) ->
  idsOK (db (run ParseInLocation Join evs s)) /\
  seq (db s) <= seq (db (run ParseInLocation Join evs s)).
Proof.
  intros Hs. induction evs as [|e evs [IH1 IH2]] using rev_ind.
  - split; [exact Hs|cbn; lia].
  - rewrite run_snoc.
    destruct (step_idsOK e _ IH1) as [H1 H2]. split; [exact H1|lia].
Qed.

Lemma boot_idsOK : idsOK (db boot).
Proof. split; [constructor|intros r []]. Qed.

End StoreInvariants.

(** X5.  The ids of the jobs in the table are pairwise distinct in every
    state the process reaches. *)
Theorem job_ids_are_unique
    (ParseInLocation : string -> option Z) (Join : string -> string -> string)
    (evs : list Event) :
  NoDup (map ID (recordings (db (run ParseInLocation Join evs boot)))).
Proof.
  destruct (run_idsOK ParseInLocation Join evs boot boot_idsOK) as [[H _] _].
  exact H.
Qed.

(** X6.  An id is never given out twice: the id the next created job gets is
    larger than the id of every job that was ever in the table, also of jobs
    that have been deleted since. *)
Theorem job_ids_are_never_reused
    (ParseInLocation : string -> option Z) (Join : string -> string -> string)
    (before after : list Event) (r : Recording) :
  In r (recordings (db (run ParseInLocation Join before boot))) ->
  ID r < nextID (db (run ParseInLocation Join after
                       (run ParseInLocation Join before boot))).
Proof.
  intros Hin.
  destruct (run_idsOK ParseInLocation Join before boot boot_idsOK) as [H1 _].
  destruct (run_idsOK ParseInLocation Join after _ H1) as [_ Hmono].
  destruct H1 as [_ Hle]. specialize (Hle r Hin).
  destruct (nextID_above
              (db (run ParseInLocation Join after
                     (run ParseInLocation Join before boot)))) as [Hn _].
  lia.
Qed.

Lemma job_ids_are_never_reused_witness :
  ID job1
  < nextID (db (run parseUTC joinPlain [DeleteRequest "DELETE" "1"]
                  (run parseUTC joinPlain
                     [Restart (Some [channel5]) (fun _ => t0 - 3600 * second);
                      CreateRequest "POST" (Some request1)] boot))).
Proof.
  apply (job_ids_are_never_reused parseUTC joinPlain
           [Restart (Some [channel5]) (fun _ => t0 - 3600 * second);
            CreateRequest "POST" (Some request1)]
           [DeleteRequest "DELETE" "1"] job1).
  left. reflexivity.
Defined.

(** After the deletion above the table is empty and the next id is 2. *)
Example deleted_id_is_not_given_out_again :
  let s := run parseUTC joinPlain
               [Restart (Some [channel5]) (fun _ => t0 - 3600 * second);
                CreateRequest "POST" (Some request1);
                DeleteRequest "DELETE" "1";
                CreateRequest "POST" (Some request1)] boot in
  map ID (recordings (db s)) = [2].
Proof. reflexivity. Qed.

Section JobFields.

Variable ParseInLocation : string -> option Z.
Variable Join : string -> string -> string.

Lemma findRecording_updateCompleted_inv (d : DB) (i id : Z) (r' : Recording) :
  findRecording (updateCompleted d i) id = Some r' ->
  exists r0, findRecording d id = Some r0 /\ sameJob r0 r'.
Proof.
  unfold findRecording, updateCompleted. cbn [recordings].
  induction (recordings d) as [|x rows IH]; cbn [map find]; [discriminate|].
  destruct (ID x =? i) eqn:Hx.
  - cbn [setStatus ID]. destruct (ID x =? id).
    + intros H. injection H as <-. exists x. split; [reflexivity|].
      repeat split.
    + exact IH.
  - destruct (ID x =? id).
    + intros H. injection H as <-. exists x. split; [reflexivity|].
      repeat split.
    + exact IH.
Qed.

Lemma findRecording_delete (d : DB) (i id : Z) :
  findRecording (deleteByID d i) id
  = if id =? i then None else findRecording d id.
Proof.
  unfold findRecording, deleteByID. cbn [recordings].
  induction (recordings d) as [|r rows IH]; cbn [filter find].
  - destruct (id =? i); reflexivity.
  - destruct (ID r =? i) eqn:Hr; cbn [negb].
    + rewrite IH. destruct (id =? i) eqn:Hi; [reflexivity|].
      destruct (ID r =? id) eqn:Hri; [|reflexivity].
      apply Z.eqb_eq in Hr, Hri. apply Z.eqb_neq in Hi. congruence.
    + cbn [find]. destruct (ID r =? id) eqn:Hri.
      * apply Z.eqb_eq in Hri. subst id. rewrite Hr. reflexivity.
      * exact IH.
Qed.

Lemma findRecording_insert (d : DB) (c dt st : string) (dur : Z)
    (status0 : string) (id : Z) (r' : Recording) :
  findRecording (fst (insertRecording d c dt st dur status0)) id = Some r' ->
  findRecording d id = Some r' \/
  (findRecording d id = None /\ id = nextID d).
Proof.
  unfold findRecording, insertRecording. cbn [fst recordings].
  destruct (find (fun r => ID r =? id) (recordings d)) as [r0|] eqn:Hf.
  - rewrite (find_app_some _ _ _ _ Hf). auto.
  - rewrite (find_app_none _ _ _ Hf). cbn [find ID].
    destruct (nextID d =? id) eqn:Hn; [|discriminate].
    apply Z.eqb_eq in Hn. intros _. right. split; [reflexivity|lia].
Qed.

Lemma sameJob_trans (a b c : Recording) :
  sameJob a b -> sameJob b c -> sameJob a c.
Proof. unfold sameJob. intuition congruence. Qed.

Lemma run_keeps_job_fields (evs : list Event) (s : State) (id : Z)
    (r : Recording) :
  findRecording (db s) id = Some r ->
  id <= seq (db s) ->
  forall r', findRecording (db (run ParseInLocation Join evs s)) id = Some r' ->
             sameJob r r'.
Proof.
  intros Hr Hid.
  assert (seq (db s) <= seq (db (run ParseInLocation Join evs s)) /\
          forall r', findRecording (db (run ParseInLocation Join evs s)) id
                     = Some r' -> sameJob r r') as [_ H]; [|exact H].
  induction evs as [|e evs [IHseq IH]] using rev_ind.
  - split; [cbn; lia|]. cbn. intros r' Hr'. rewrite Hr in Hr'.
    injection Hr' as <-. repeat split.
  - rewrite run_snoc. set (s1 := run ParseInLocation Join evs s) in *.
    destruct (step_store ParseInLocation Join e s1)
      as [[Hrec Hs] | [(i & H) | [(i & H) | (c & dt & st & dur & H)]]].
    + split; [lia|]. intros r' Hr'. apply IH.
      unfold findRecording in *. rewrite Hrec in Hr'. exact Hr'.
    + rewrite H. split; [cbn [updateCompleted seq]; lia|]. intros r' Hr'.
      apply findRecording_updateCompleted_inv in Hr' as (r0 & Hr0 & Hsame).
      exact (sameJob_trans _ _ _ (IH r0 Hr0) Hsame).
    + rewrite H. split; [cbn [deleteByID seq]; lia|]. intros r' Hr'.
      rewrite findRecording_delete in Hr'.
      destruct (id =? i); [discriminate|]. auto.
    + rewrite H. destruct (nextID_above (db s1)) as [Hn _].
      split; [cbn [insertRecording fst seq]; lia|]. intros r' Hr'.
      apply findRecording_insert in Hr' as [Hr' | [_ Hr']]; [auto|lia].
Qed.

End JobFields.

(** X7.  Once stored, a job keeps its id, channel, date, start time and
    duration for as long as it is in the table: no event changes them, and
    no later job takes its id.  So the path the server derives for a job is
    the path its worker wrote to. *)
Theorem job_fields_never_change
    (ParseInLocation : string -> option Z) (Join : string -> string -> string)
    (before after : list Event) (id : Z) (r r' : Recording) :
  let s := run ParseInLocation Join before boot in
  findRecording (db s) id = Some r ->
  findRecording (db (run ParseInLocation Join after s)) id = Some r' ->
  ID r' = ID r /\ ChannelID r' = ChannelID r /\ Date r' = Date r /\
  StartTime r' = StartTime r /\ Duration r' = Duration r.
Proof.
  intros s Hr Hr'.
  destruct (run_idsOK ParseInLocation Join before boot boot_idsOK)
    as [[_ Hle] _]. fold s in Hle.
  assert (id <= seq (db s)) as Hid.
  { unfold findRecording in Hr. apply find_some in Hr as [Hin Heq].
    apply Z.eqb_eq in Heq. subst id. auto. }
  pose proof (run_keeps_job_fields ParseInLocation Join after s id r Hr Hid r' Hr')
    as (H1 & H2 & H3 & H4 & H5).
  repeat split; congruence.
Qed.

Lemma job_fields_never_change_witness :
  let s := run parseUTC joinPlain
               [Restart (Some [channel5]) (fun _ => t0 - 3600 * second);
                CreateRequest "POST" (Some request1)] boot in
  ID job1done = ID job1 /\ ChannelID job1done = ChannelID job1 /\
  Date job1done = Date job1 /\ StartTime job1done = StartTime job1 /\
  Duration job1done = Duration job1.
Proof.
  apply (job_fields_never_change parseUTC joinPlain
           [Restart (Some [channel5]) (fun _ => t0 - 3600 * second);
            CreateRequest "POST" (Some request1)]
           [Tick (t0 + 30 * second);
            WorkerReturns 0 (world CleanExit NotExist)]
           1 job1 job1done); reflexivity.
Defined.

(** ** Delete *)

Lemma filter_filter_same {A : Type} (p : A -> bool) (l : list A) :
  filter p (filter p l) = filter p l.
Proof.
  induction l as [|x l IH]; cbn [filter]; [reflexivity|].
  destruct (p x) eqn:Hp; cbn [filter]; [rewrite Hp, IH|]; auto.
Qed.

(** X8.  A delete with a numeric id answers 204 whether or not the job
    exists; afterwards the job is not in the table and a fetch of it answers
    404, every other job and every channel is as before, and a second delete
    changes nothing more. *)
Theorem deleted_job_is_gone
    (Join : string -> string -> string) (Base : string -> string)
    (w : World) (idStr rangeHeader : string) (id : Z) (s : State) :
  Atoi idStr = Some id ->
  let s' := fst (deleteRecording "DELETE" idStr s) in
  snd (deleteRecording "DELETE" idStr s) = mkResponse 204 [] NoBody /\
  findRecording (db s') id = None /\
  (forall id', id' <> id ->
               findRecording (db s') id' = findRecording (db s) id') /\
  channels (db s') = channels (db s) /\
  status (getRecordingFile Join Base w (db s') idStr rangeHeader) = 404 /\
  fst (deleteRecording "DELETE" idStr s') = s'.
Proof.
  intros Hid s'. unfold s', deleteRecording.
  cbn [String.eqb Ascii.eqb Bool.eqb negb]. rewrite Hid. cbn [fst snd db].
  split; [reflexivity|]. split.
  { rewrite findRecording_delete, Z.eqb_refl. reflexivity. }
  split.
  { intros id' Hne. rewrite findRecording_delete.
    apply Z.eqb_neq in Hne. rewrite Hne. reflexivity. }
  split; [reflexivity|]. split.
  { unfold getRecordingFile, queryRecording. rewrite Hid.
    rewrite findRecording_delete, Z.eqb_refl. reflexivity. }
  cbn [recordingCh workers]. f_equal.
  unfold deleteByID. cbn [channels recordings seq].
  rewrite filter_filter_same. reflexivity.
Qed.

Lemma deleted_job_is_gone_witness :
  let s' := fst (deleteRecording "DELETE" "1" state1) in
  snd (deleteRecording "DELETE" "1" state1) = mkResponse 204 [] NoBody /\
  findRecording (db s') 1 = None /\
  (forall id', id' <> 1 ->
               findRecording (db s') id' = findRecording (db state1) id') /\
  channels (db s') = channels (db state1) /\
  status (getRecordingFile joinPlain basePlain (world CleanExit NotExist)
            (db s') "1" "") = 404 /\
  fst (deleteRecording "DELETE" "1" s') = s'.
Proof.
  apply (deleted_job_is_gone joinPlain basePlain (world CleanExit NotExist)
           "1" "" 1 state1).
  reflexivity.
Defined.

Lemma updateCompleted_absent (d : DB) (id : Z) :
  findRecording d id = None -> updateCompleted d id = d.
Proof.
  intros Hf. unfold updateCompleted. rewrite <- (DB_eta d) at 4. f_equal.
  unfold findRecording in Hf. rewrite <- (map_id (recordings d)) at 2.
  apply map_ext_in. intros r Hin.
  rewrite (find_none _ _ Hf r Hin). reflexivity.
Qed.

(** X9.  A worker whose job was deleted while it captured does not bring the
    job back: whatever the capture's outcome, its return leaves the store
    exactly as the delete left it. *)
Theorem worker_does_not_bring_back_a_deleted_job
    (Join : string -> string -> string)
    (w : World) (r : Recording) (d : DB) :
  fst (startRecording Join w r (deleteByID d (ID r))) = deleteByID d (ID r).
Proof.
  destruct (startRecording_cases Join w r (deleteByID d (ID r))) as [H | H];
    rewrite H; [reflexivity|].
  apply updateCompleted_absent.
  rewrite findRecording_delete, Z.eqb_refl. reflexivity.
Qed.

(** ** Channels *)

Section ChannelFacts.

Lemma find_app_first {A : Type} (f : A -> bool) (l l' : list A) :
  find f (l ++ l')
  = match find f l with Some x => Some x | None => find f l' end.
Proof.
  induction l as [|y l IH]; cbn [find app]; [reflexivity|].
  destruct (f y); [reflexivity|exact IH].
Qed.

Lemma channelExists_findChannel (d : DB) (k : string) :
  channelExists d k = true <-> findChannel d k <> None.
Proof.
  unfold channelExists, findChannel.
  induction (channels d) as [|c cs IH]; cbn [existsb find].
  - split; [discriminate|intros H; contradiction].
  - destruct (String.eqb (GuideNumber c) k); cbn [orb]; [|exact IH].
    split; [discriminate|reflexivity].
Qed.

(** Looking a channel up after a load is looking it up in the old rows
    followed by the fetched ones. *)
Lemma findChannel_fold (chs : list Channel) :
  forall d k,
    findChannel (fold_left insertChannelOrIgnore chs d) k
    = find (fun c => String.eqb (GuideNumber c) k) (channels d ++ chs).
Proof.
  induction chs as [|c chs IH]; intros d k; cbn [fold_left].
  - rewrite app_nil_r. reflexivity.
  - rewrite IH. unfold insertChannelOrIgnore.
    destruct (channelExists d (GuideNumber c)) eqn:Hex.
    + rewrite !find_app_first. cbn [find].
      destruct (find _ (channels d)) as [x|] eqn:Hf; [reflexivity|].
      destruct (String.eqb (GuideNumber c) k) eqn:Hk; [|reflexivity].
      apply String.eqb_eq in Hk. subst k.
      apply channelExists_findChannel in Hex. unfold findChannel in Hex.
      congruence.
    + cbn [channels]. rewrite <- app_assoc. reflexivity.
Qed.

Lemma fold_insert_known (chs : list Channel) :
  forall d,
    (forall c, In c chs -> channelExists d (GuideNumber c) = true) ->
    fold_left insertChannelOrIgnore chs d = d.
Proof.
  induction chs as [|c chs IH]; intros d H; cbn [fold_left]; [reflexivity|].
  unfold insertChannelOrIgnore at 2. rewrite (H c (or_introl eq_refl)).
  apply IH. intros c' Hin. apply H. right. exact Hin.
Qed.

Lemma NoDup_keys_insert (d : DB) (c : Channel) :
  NoDup (map GuideNumber (channels d)) ->
  NoDup (map GuideNumber (channels (insertChannelOrIgnore d c))).
Proof.
  intros Hnd. unfold insertChannelOrIgnore.
  destruct (channelExists d (GuideNumber c)) eqn:Hex; [exact Hnd|].
  cbn [channels]. rewrite map_app. cbn [map].
  apply NoDup_app; [exact Hnd|repeat constructor; intros []|].
  intros k Hk [<- | []].
  apply in_map_iff in Hk as (c0 & Hc0 & Hin).
  assert (channelExists d (GuideNumber c) = true) as Habs.
  { unfold channelExists. apply existsb_exists. exists c0.
    split; [exact Hin|]. apply String.eqb_eq, Hc0. }
  congruence.
Qed.

Lemma NoDup_keys_load (lineup : option (list Channel)) (d : DB) :
  NoDup (map GuideNumber (channels d)) ->
  NoDup (map GuideNumber (channels (loadChannels lineup d))).
Proof.
  destruct lineup as [chs|]; [|auto]. cbn [loadChannels].
  revert d. induction chs as [|c chs IH]; intros d H; [exact H|].
  cbn [fold_left]. apply IH, NoDup_keys_insert, H.
Qed.

End ChannelFacts.

(** X10.  Loading a lineup inserts and never overwrites: after the load the
    row of a guide number is the first row with that number among the rows
    that were stored, followed by the fetched ones.  So a stored channel
    keeps its name and URL, and of two fetched channels with one number the
    first is stored. *)
Theorem channel_load_keeps_the_first_row
    (chs : list Channel) (d : DB) (k : string) :
  findChannel (loadChannels (Some chs) d) k
  = match findChannel d k with
    | Some c => Some c
    | None => find (fun c => String.eqb (GuideNumber c) k) chs
    end.
Proof.
  cbn [loadChannels]. rewrite findChannel_fold, find_app_first. reflexivity.
Qed.

(** X11.  Loading the same lineup again changes nothing: a second
    [loadChannels] with what the first one was given leaves the store
    exactly as it is. *)
Theorem channel_load_is_idempotent
    (lineup : option (list Channel)) (d : DB) :
  loadChannels lineup (loadChannels lineup d) = loadChannels lineup d.
Proof.
  destruct lineup as [chs|]; [|reflexivity]. cbn [loadChannels].
  apply fold_insert_known. intros c Hin.
  apply channelExists_findChannel. rewrite findChannel_fold, find_app_first.
  destruct (find _ (channels d)); [discriminate|].
  destruct (find (fun c0 => String.eqb (GuideNumber c0) (GuideNumber c)) chs)
    eqn:Hf; [discriminate|].
  pose proof (find_none _ _ Hf c Hin) as Hc. cbn in Hc.
  rewrite String.eqb_refl in Hc. discriminate Hc.
Qed.

Section ChannelInvariant.

Variable ParseInLocation : string -> option Z.
Variable Join : string -> string -> string.

Lemma step_channels (e : Event) (s : State) :
  channels (db (step ParseInLocation Join e s)) = channels (db s) \/
  exists lineup,
    channels (db (step ParseInLocation Join e s))
    = channels (loadChannels lineup (db s)).
Proof.
  destruct e as [lineup clock|now| |i w|method reqBody|method idStr|w idStr rh];
    cbn [step]; try (left; reflexivity).
  - right. exists lineup. reflexivity.
  - destruct (nth_error (workers s) i) as [r|]; [|left; reflexivity].
    cbn [db]. destruct (startRecording_cases Join w r (db s)) as [-> | ->];
      left; reflexivity.
  - destruct (createRecording_cases method reqBody s)
      as [-> | (req & _ & _ & _ & H)]; left; [reflexivity|].
    rewrite H. reflexivity.
  - destruct (deleteRecording_cases method idStr s) as [-> | (id & H)];
      left; [reflexivity|]. rewrite H. reflexivity.
Qed.

Lemma run_channel_keys (evs : list Event) :
  NoDup (map GuideNumber (channels (db (run ParseInLocation Join evs boot)))).
Proof.
  induction evs as [|e evs IH] using rev_ind; [constructor|].
  rewrite run_snoc.
  destruct (step_channels e (run ParseInLocation Join evs boot))
    as [-> | (lineup & ->)]; [exact IH|].
  apply NoDup_keys_load, IH.
Qed.

End ChannelInvariant.

(** X12.  In every state the process reaches, [getChannels] lists each
    stored channel once, in table order, under pairwise distinct guide
    numbers; on an empty table it answers [null], not an empty array. *)
Theorem channel_list_has_each_channel_once
    (ParseInLocation : string -> option Z) (Join : string -> string -> string)
    (evs : list Event) :
  let d := db (run ParseInLocation Join evs boot) in
  let listed :=
    map (fun c => ChannelResponse.mk (GuideNumber c) (GuideName c))
        (channels d) in
  getChannels d = Listed (encodeSlice listed) /\
  List.length listed = List.length (channels d) /\
  NoDup (map ChannelResponse.GuideNumber listed) /\
  (channels d = [] <-> getChannels d = Listed JsonNull).
Proof.
  intros d listed. split; [reflexivity|]. split.
  { unfold listed. apply length_map. }
  split.
  { unfold listed. rewrite map_map. cbn [ChannelResponse.GuideNumber].
    apply run_channel_keys. }
  unfold getChannels. fold listed. unfold listed.
  destruct (channels d) as [|c cs]; cbn [map encodeSlice].
  - split; reflexivity.
  - split; discriminate.
Qed.

(** X13.  The channels a client can schedule are the channels [getChannels]
    lists: a create request with a positive duration is answered 201 exactly
    when its channel id is a guide number of the list. *)
Theorem listed_channels_are_the_schedulable_ones
    (req : Req.RecordingRequest) (s : State) :
  0 < Req.Duration req ->
  (status (snd (createRecording "POST" (Some req) s)) = 201 <->
   exists items,
     getChannels (db s) = Listed (JsonItems items) /\
     In (Req.ChannelID req) (map ChannelResponse.GuideNumber items)).
Proof.
  intros Hd. apply Z.leb_gt in Hd.
  unfold createRecording. cbn [String.eqb Ascii.eqb Bool.eqb negb]. rewrite Hd.
  unfold getChannels, channelExists.
  destruct (existsb _ (channels (db s))) eqn:Hex; cbn [negb snd status].
  - split; [intros _|reflexivity].
    apply existsb_exists in Hex as (c & Hin & Hc). apply String.eqb_eq in Hc.
    destruct (channels (db s)) as [|c0 cs] eqn:Hch; [contradiction|].
    eexists. split; [reflexivity|].
    rewrite map_map. cbn [ChannelResponse.GuideNumber].
    apply in_map_iff. exists c. split; assumption.
  - split; [discriminate|]. intros (items & Hlist & Hin). exfalso.
    destruct (channels (db s)) as [|c0 cs] eqn:Hch; [discriminate|].
    cbn [map encodeSlice] in Hlist. injection Hlist as <-.
    change (ChannelResponse.mk (GuideNumber c0) (GuideName c0)
              :: map (fun c => ChannelResponse.mk (GuideNumber c) (GuideName c)) cs)
      with (map (fun c => ChannelResponse.mk (GuideNumber c) (GuideName c))
                (c0 :: cs)) in Hin.
    rewrite map_map in Hin. cbn [ChannelResponse.GuideNumber] in Hin.
    apply in_map_iff in Hin as (c & Hc & Hcin).
    assert (existsb (fun c1 => String.eqb (GuideNumber c1) (Req.ChannelID req))
                    (c0 :: cs) = true) as Habs.
    { apply existsb_exists. exists c. split; [exact Hcin|].
      apply String.eqb_eq, Hc. }
    congruence.
Qed.

Lemma listed_channels_are_the_schedulable_ones_witness :
  status (snd (createRecording "POST" (Some request1) state1)) = 201 <->
  exists items,
    getChannels (db state1) = Listed (JsonItems items) /\
    In (Req.ChannelID request1) (map ChannelResponse.GuideNumber items).
Proof.
  apply (listed_channels_are_the_schedulable_ones request1 state1).
  reflexivity.
Defined.

(** ** Create, then fetch *)

Lemma maxID_nonneg (rows : list Recording) : 0 <= maxID rows.
Proof.
  induction rows as [|r rows IH]; cbn [maxID fold_right]; [lia|].
  unfold maxID in IH. lia.
Qed.

(** X14.  A job that has just been created is not served: the create answers
    with the new row, 'pending' under the next id, and a fetch by that id
    answers 403 whatever the range header and whatever is on disk. *)
Theorem created_job_is_not_served_yet
    (Join : string -> string -> string) (Base : string -> string)
    (w : World) (req : Req.RecordingRequest) (s : State)
    (rangeHeader : string) :
  0 < Req.Duration req ->
  channelExists (db s) (Req.ChannelID req) = true ->
  nextID (db s) < 2 ^ 63 ->
  let out := createRecording "POST" (Some req) s in
  let id := nextID (db s) in
  body (snd out)
  = JsonRecording (mkRecording id (Req.ChannelID req) (Req.Date req)
                               (Req.StartTime req) (Req.Duration req)
                               "pending") /\
  getRecordingFile Join Base w (db (fst out)) (FormatInt id) rangeHeader
  = httpError (Plain "Recording not completed") 403.
Proof.
  intros Hd Hc Hid out id. unfold out, createRecording.
  cbn [String.eqb Ascii.eqb Bool.eqb negb].
  apply Z.leb_gt in Hd. rewrite Hd, Hc.
  cbn [negb insertRecording ChannelID Date StartTime Duration Status withID
       fst snd body db]. fold id.
  split; [reflexivity|].
  assert (0 <= id < 2 ^ 63) as Hrange.
  { pose proof (maxID_nonneg (recordings (db s))).
    unfold id, nextID in *. lia. }
  destruct (ParseInt_FormatInt id Hrange) as [Hparse _].
  unfold getRecordingFile, Atoi, queryRecording. rewrite Hparse.
  unfold findRecording. cbn [recordings].
  pose proof (nextID_fresh (db s)) as Hf. unfold findRecording in Hf.
  fold id in Hf. rewrite (find_app_none _ _ _ Hf). cbn [find ID].
  rewrite Z.eqb_refl. cbn [ChannelID].
  destruct (channelExists_find (db s) _ Hc) as (c & Hfc & _).
  unfold findChannel in *. cbn [channels]. rewrite Hfc. reflexivity.
Qed.

Lemma created_job_is_not_served_yet_witness :
  let out := createRecording "POST" (Some request1) state1 in
  let id := nextID (db state1) in
  body (snd out)
  = JsonRecording (mkRecording id (Req.ChannelID request1)
                               (Req.Date request1) (Req.StartTime request1)
                               (Req.Duration request1) "pending") /\
  getRecordingFile joinPlain basePlain (world CleanExit (Regular file10))
    (db (fst out)) (FormatInt id) "bytes=0-1"
  = httpError (Plain "Recording not completed") 403.
Proof.
  apply (created_job_is_not_served_yet joinPlain basePlain
           (world CleanExit (Regular file10)) request1 state1 "bytes=0-1").
  - reflexivity.
  - reflexivity.
  - reflexivity.
Defined.

(** ** The list of jobs *)

Section ListFacts.

Lemma insertByStartTime_perm (r : Recording) (l : list Recording) :
  Permutation (insertByStartTime r l) (r :: l).
Proof.
  induction l as [|x l IH]; cbn [insertByStartTime]; [reflexivity|].
  destruct (String.leb (StartTime r) (StartTime x)); [reflexivity|].
  rewrite IH. apply perm_swap.
Qed.

Lemma orderByStartTime_perm (l : list Recording) :
  Permutation (orderByStartTime l) l.
Proof.
  induction l as [|r l IH]; cbn [orderByStartTime fold_right]; [reflexivity|].
  fold (orderByStartTime l). rewrite insertByStartTime_perm, IH. reflexivity.
Qed.

Lemma insertByStartTime_sorted (r : Recording) (l : list Recording) :
  Sorted byStartTime l -> Sorted byStartTime (insertByStartTime r l).
Proof.
  induction l as [|x l IH]; cbn [insertByStartTime]; intros Hs.
  - repeat constructor.
  - destruct (String.leb (StartTime r) (StartTime x)) eqn:Hle.
    + constructor; [exact Hs|]. constructor. exact Hle.
    + inversion Hs as [|y ys Hsl Hhd]; subst.
      constructor; [apply IH, Hsl|].
      assert (byStartTime x r) as Hxr.
      { unfold byStartTime.
        destruct (String.leb_total (StartTime r) (StartTime x)); congruence. }
      destruct l as [|z l]; cbn [insertByStartTime].
      * constructor. exact Hxr.
      * destruct (String.leb (StartTime r) (StartTime z)).
        -- constructor. exact Hxr.
        -- constructor. inversion Hhd; subst. assumption.
Qed.

Lemma orderByStartTime_sorted (l : list Recording) :
  Sorted byStartTime (orderByStartTime l).
Proof.
  induction l as [|r l IH]; cbn [orderByStartTime fold_right]; [constructor|].
  apply insertByStartTime_sorted, IH.
Qed.

(** The scan succeeds when every row has its channel, and then the items are
    the rows, each with the number and name of its channel. *)
Lemma scanJoined_some (d : DB) (rows : list Recording) :
  (forall r, In r rows -> findChannel d (ChannelID r) <> None) ->
  exists items,
    scanJoined d rows = Some items /\
    map rowOf items = rows /\
    Forall (fun it =>
              exists c, findChannel d (RecordingItem.ChannelID it) = Some c /\
                        RecordingItem.GuideNumber it = GuideNumber c /\
                        RecordingItem.GuideName it = GuideName c)
           items.
Proof.
  induction rows as [|r rows IH]; intros H.
  - exists []. repeat split. constructor.
  - destruct IH as (items & Hscan & Hrows & Hall).
    { intros r' Hin. apply H. right. exact Hin. }
    cbn [scanJoined].
    destruct (findChannel d (ChannelID r)) as [c|] eqn:Hc;
      [|exfalso; apply (H r (or_introl eq_refl)); exact Hc].
    rewrite Hscan. eexists. split; [reflexivity|]. split.
    + cbn [map rowOf RecordingItem.ID RecordingItem.ChannelID
           RecordingItem.Date RecordingItem.StartTime RecordingItem.Duration
           RecordingItem.Status]. rewrite Hrows. destruct r; reflexivity.
    + constructor; [|exact Hall].
      cbn [RecordingItem.ChannelID RecordingItem.GuideNumber
           RecordingItem.GuideName]. exists c. repeat split. exact Hc.
Qed.

Lemma scanJoined_none (d : DB) (rows : list Recording) :
  scanJoined d rows = None <->
  exists r, In r rows /\ findChannel d (ChannelID r) = None.
Proof.
  induction rows as [|r rows IH]; cbn [scanJoined].
  - split; [discriminate|intros (r & [] & _)].
  - destruct (findChannel d (ChannelID r)) as [c|] eqn:Hc.
    + destruct (scanJoined d rows) as [items|].
      * split; [discriminate|]. intros (r' & [<- | Hin] & Hn); [congruence|].
        exfalso. assert (Some items = None) as Habs by (apply IH; eauto).
        discriminate Habs.
      * split; [|reflexivity]. intros _.
        destruct (proj1 IH eq_refl) as (r' & Hin & Hn).
        exists r'. split; [right; exact Hin|exact Hn].
    + split; [|reflexivity]. intros _. exists r. split; [left; reflexivity|exact Hc].
Qed.

Lemma Sorted_map_rowOf (items : list RecordingItem.recordingItem) :
  Sorted byStartTime (map rowOf items) ->
  Sorted (fun a b => byStartTime (rowOf a) (rowOf b)) items.
Proof.
  induction items as [|a items IH]; cbn [map]; intros H; [constructor|].
  inversion H as [|x xs Hs Hhd]; subst. constructor; [apply IH, Hs|].
  destruct items as [|b items]; cbn [map] in *; constructor.
  inversion Hhd; subst. assumption.
Qed.

End ListFacts.

(** X15.  In every state the process reaches, [getRecordings] answers 200
    with every job of the table exactly once, each with the guide number and
    name of its channel, ordered by the bytes of the start time alone (the
    date plays no part); on an empty table it answers [null]. *)
Theorem recordings_are_listed_by_start_time
    (ParseInLocation : string -> option Z) (Join : string -> string -> string)
    (evs : list Event) :
  let d := db (run ParseInLocation Join evs boot) in
  exists items,
    getRecordings d = Listed (encodeSlice items) /\
    Permutation (map rowOf items) (recordings d) /\
    Sorted (fun a b => byStartTime (rowOf a) (rowOf b)) items /\
    Forall (fun it =>
              RecordingItem.GuideNumber it = RecordingItem.ChannelID it /\
              exists c, findChannel d (RecordingItem.ChannelID it) = Some c /\
                        RecordingItem.GuideName it = GuideName c) items /\
    (recordings d = [] <-> getRecordings d = Listed JsonNull).
Proof.
  intros d.
  destruct (run_invariants ParseInLocation Join evs) as [_ Hfk]. fold d in Hfk.
  destruct (scanJoined_some d (orderByStartTime (recordings d)))
    as (items & Hscan & Hrows & Hall).
  { intros r Hin. apply channelExists_findChannel, Hfk.
    eapply Permutation_in; [apply orderByStartTime_perm|exact Hin]. }
  exists items. unfold getRecordings. rewrite Hscan.
  split; [reflexivity|]. split.
  { rewrite Hrows. apply orderByStartTime_perm. }
  split.
  { apply Sorted_map_rowOf. rewrite Hrows. apply orderByStartTime_sorted. }
  split.
  { eapply Forall_impl; [|exact Hall]. cbn beta.
    intros it (c & Hc & Hnum & Hname).
    pose proof (findChannel_key _ _ _ Hc) as Hkey.
    split; [congruence|]. exists c. split; assumption. }
  assert (Permutation (map rowOf items) (recordings d)) as Hperm.
  { rewrite Hrows. apply orderByStartTime_perm. }
  split.
  - intros Hnil. rewrite Hnil in Hperm. symmetry in Hperm.
    apply Permutation_nil in Hperm.
    destruct items; [reflexivity|discriminate].
  - intros Hnull. destruct items as [|it items]; [|discriminate].
    cbn [map] in Hperm. apply Permutation_nil. exact Hperm.
Qed.

(** X16.  On any store, [getRecordings] fails with 500, and lists nothing,
    exactly when some job's channel is not in [channels]: one such job hides
    the whole list. *)
Theorem job_list_fails_on_an_unknown_channel (d : DB) :
  getRecordings d = ListFailed 500 <->
  exists r, In r (recordings d) /\ findChannel d (ChannelID r) = None.
Proof.
  unfold getRecordings.
  destruct (scanJoined d (orderByStartTime (recordings d))) as [items|] eqn:Hs.
  - split; [discriminate|]. intros (r & Hin & Hn). exfalso.
    assert (scanJoined d (orderByStartTime (recordings d)) = None) as Habs.
    { apply scanJoined_none. exists r. split; [|exact Hn].
      eapply Permutation_in; [symmetry; apply orderByStartTime_perm|exact Hin]. }
    congruence.
  - split; [|reflexivity]. intros _.
    apply scanJoined_none in Hs as (r & Hin & Hn). exists r. split; [|exact Hn].
    eapply Permutation_in; [apply orderByStartTime_perm|exact Hin].
Qed.

(** ** More on the scheduler *)

(** X17.  Two ticks at least a minute apart never both match a job: a job
    matched by a tick is not matched by any tick a minute or more later,
    whatever rows that tick reads. *)
Theorem ticks_a_minute_apart_match_a_job_once
    (ParseInLocation : string -> option Z)
    (now now' : Z) (rows rows' : list Recording) (r : Recording) :
  In r (dispatch ParseInLocation now rows) ->
  now + Minute <= now' ->
  ~ In r (dispatch ParseInLocation now' rows').
Proof.
  intros H1 Hgap H2.
  apply dispatch_In in H1 as (_ & t & Ht & Hopen).
  apply dispatch_In in H2 as (_ & t' & Ht' & Hopen').
  rewrite Ht in Ht'. injection Ht' as <-.
  unfold Window.open in *. lia.
Qed.

Lemma ticks_a_minute_apart_match_a_job_once_witness :
  ~ In job1 (dispatch parseUTC (t0 + 30 * second + Minute)
               (selectPending db1)).
Proof.
  apply (ticks_a_minute_apart_match_a_job_once parseUTC
           (t0 + 30 * second) (t0 + 30 * second + Minute)
           (selectPending db1) (selectPending db1) job1).
  - left. reflexivity.
  - vm_compute. discriminate.
Defined.

Section LaunchFacts.

Variable ParseInLocation : string -> option Z.

Lemma dispatch_NoDup (now : Z) (rows : list Recording) :
  NoDup (map ID rows) -> NoDup (map ID (dispatch ParseInLocation now rows)).
Proof.
  induction rows as [|x rows IH]; cbn [dispatch map]; [auto|].
  intros H. inversion H as [|y ys Hnin Hnd]; subst.
  specialize (IH Hnd).
  destruct (startInstant ParseInLocation x) as [t|]; [|exact IH].
  destruct (After now t && Before now (Add t (1 * Minute))); [|exact IH].
  cbn [map]. constructor; [|exact IH].
  intros Hin. apply Hnin. apply in_map_iff in Hin as (z & Hz & Hzin).
  apply dispatch_In in Hzin as [Hzin _]. apply in_map_iff. eauto.
Qed.

Lemma selectPending_NoDup (d : DB) :
  NoDup (map ID (recordings d)) -> NoDup (map ID (selectPending d)).
Proof. apply filter_keeps_distinct_keys. Qed.

Lemma NoDup_filter_ID (id : Z) (l : list Recording) :
  NoDup (map ID l) ->
  (List.length (filter (fun r => (ID r =? id)%Z) l) <= 1)%nat.
Proof.
  induction l as [|x l IH]; cbn [map filter]; [cbn; lia|].
  intros H. inversion H as [|y ys Hnin Hnd]; subst. specialize (IH Hnd).
  destruct (ID x =? id) eqn:Hx; [|exact IH].
  apply Z.eqb_eq in Hx. cbn [List.length].
  destruct (filter (fun r => (ID r =? id)%Z) l) as [|z zs] eqn:Hf; [cbn; lia|].
  exfalso. apply Hnin.
  assert (In z (filter (fun r => (ID r =? id)%Z) l)) as Hz
    by (rewrite Hf; left; reflexivity).
  apply filter_In in Hz as [Hzin Hzid]. apply Z.eqb_eq in Hzid.
  apply in_map_iff. exists z. split; [congruence|exact Hzin].
Qed.

Lemma NoDup_find_ID (l : list Recording) (r : Recording) :
  NoDup (map ID l) -> In r l -> find (fun x => ID x =? ID r) l = Some r.
Proof.
  induction l as [|x l IH]; cbn [map find]; [contradiction|].
  intros H Hin. inversion H as [|y ys Hnin Hnd]; subst.
  destruct Hin as [-> | Hin].
  - rewrite Z.eqb_refl. reflexivity.
  - destruct (ID x =? ID r) eqn:Hx; [|auto].
    exfalso. apply Hnin. apply Z.eqb_eq in Hx. rewrite Hx.
    apply in_map. exact Hin.
Qed.

Lemma filter_nil_iff {A : Type} (p : A -> bool) (l : list A) :
  (forall x, In x l -> p x = false) -> filter p l = [].
Proof.
  induction l as [|x l IH]; cbn [filter]; [reflexivity|].
  intros H. rewrite (H x (or_introl eq_refl)). apply IH.
  intros y Hy. apply H. right. exact Hy.
Qed.

End LaunchFacts.

(** X18.  In every state the process reaches, one tick launches at most one
    worker for a job. *)
Theorem tick_launches_a_job_at_most_once
    (ParseInLocation : string -> option Z) (Join : string -> string -> string)
    (evs : list Event) (now id : Z) :
  let s := run ParseInLocation Join evs boot in
  (launches id (tick ParseInLocation now s) <= launches id s + 1)%nat.
Proof.
  intros s. rewrite launches_tick.
  destruct (run_idsOK ParseInLocation Join evs boot boot_idsOK) as [[Hnd _] _].
  fold s in Hnd.
  pose proof (NoDup_filter_ID id _
                (dispatch_NoDup ParseInLocation now _
                   (selectPending_NoDup _ Hnd))).
  lia.
Qed.

(** X19.  In every state the process reaches, a tick launches a worker only
    for a job whose stored status is 'pending': a job that is 'completed',
    or that is not in the table, is never launched. *)
Theorem tick_launches_pending_jobs_only
    (ParseInLocation : string -> option Z) (Join : string -> string -> string)
    (evs : list Event) (now id : Z) :
  let s := run ParseInLocation Join evs boot in
  statusOf (db s) id <> Some "pending" ->
  launches id (tick ParseInLocation now s) = launches id s.
Proof.
  intros s Hst. rewrite launches_tick.
  destruct (run_idsOK ParseInLocation Join evs boot boot_idsOK) as [[Hnd _] _].
  fold s in Hnd.
  rewrite filter_nil_iff; [cbn [List.length]; lia|].
  intros r Hin. apply dispatch_In in Hin as [Hin _].
  apply selectPending_In in Hin as [Hin Hp].
  destruct (ID r =? id) eqn:Hid; [|reflexivity].
  exfalso. apply Hst. apply Z.eqb_eq in Hid. subst id.
  unfold statusOf, findRecording. rewrite (NoDup_find_ID _ r Hnd Hin).
  cbn [option_map]. rewrite Hp. reflexivity.
Qed.

Lemma tick_launches_pending_jobs_only_witness :
  let s := run parseUTC joinPlain
               [Restart (Some [channel5]) (fun _ => t0 - 3600 * second);
                CreateRequest "POST" (Some request1);
                Tick (t0 + 30 * second);
                WorkerReturns 0 (world CleanExit NotExist)] boot in
  launches 1 (tick parseUTC (t0 + 45 * second) s) = launches 1 s.
Proof.
  apply (tick_launches_pending_jobs_only parseUTC joinPlain
           [Restart (Some [channel5]) (fun _ => t0 - 3600 * second);
            CreateRequest "POST" (Some request1);
            Tick (t0 + 30 * second);
            WorkerReturns 0 (world CleanExit NotExist)]
           (t0 + 45 * second) 1).
  vm_compute. discriminate.
Defined.

(** X20.  A create request is not checked for its date and start time: when
    they do not parse, the job is still stored as 'pending' and answered
    201, and no tick ever launches it. *)
Theorem unparsable_job_is_stored_and_never_launched
    (ParseInLocation : string -> option Z)
    (req : Req.RecordingRequest) (s : State) :
  0 < Req.Duration req ->
  channelExists (db s) (Req.ChannelID req) = true ->
  ParseInLocation (Req.Date req ++ " " ++ Req.StartTime req) = None ->
  let out := createRecording "POST" (Some req) s in
  let row := mkRecording (nextID (db s)) (Req.ChannelID req) (Req.Date req)
                         (Req.StartTime req) (Req.Duration req) "pending" in
  status (snd out) = 201 /\
  In row (selectPending (db (fst out))) /\
  forall now rows, ~ In row (dispatch ParseInLocation now rows).
Proof.
  intros Hd Hc Hparse out row. unfold out, createRecording.
  cbn [String.eqb Ascii.eqb Bool.eqb negb].
  apply Z.leb_gt in Hd. rewrite Hd, Hc.
  cbn [negb insertRecording ChannelID Date StartTime Duration Status withID
       fst snd status db].
  split; [reflexivity|]. split.
  - apply selectPending_In. cbn [recordings]. split; [|reflexivity].
    apply in_or_app. right. left. reflexivity.
  - intros now rows Hin. apply dispatch_In in Hin as (_ & t & Ht & _).
    unfold startInstant, row in Ht. cbn [Date StartTime] in Ht. congruence.
Qed.

Lemma unparsable_job_is_stored_and_never_launched_witness :
  let req := Req.mk "5" "someday" "noon" 30 in
  let out := createRecording "POST" (Some req) state1 in
  let row := mkRecording (nextID (db state1)) "5" "someday" "noon" 30
                         "pending" in
  status (snd out) = 201 /\
  In row (selectPending (db (fst out))) /\
  forall now rows, ~ In row (dispatch parseUTC now rows).
Proof.
  apply (unparsable_job_is_stored_and_never_launched parseUTC
           (Req.mk "5" "someday" "noon" 30) state1); reflexivity.
Defined.

Section StartupFacts.

Variable ParseInLocation : string -> option Z.

Lemma loadLoop_future (clock : nat -> Z) (rows : list Recording) :
  forall i ch,
    (List.length ch <= recordingChCap)%nat ->
    loadLoop ParseInLocation clock i rows ch
    = let F := futureRows ParseInLocation clock i rows in
      if (List.length ch + List.length F <=? recordingChCap)%nat
      then Returned (ch ++ F)
      else Blocked (ch ++ firstn (recordingChCap - List.length ch) F).
Proof.
  induction rows as [|r rows IH]; intros i ch Hch; cbn [loadLoop futureRows].
  - cbn zeta. cbn [List.length]. rewrite Nat.add_0_r, app_nil_r.
    apply Nat.leb_le in Hch. rewrite Hch. reflexivity.
  - destruct (startInstant ParseInLocation r) as [t|]; [|apply IH, Hch].
    unfold After, Before.
    destruct (clock i <? t) eqn:Hfut.
    + apply Z.ltb_lt in Hfut.
      assert ((t <? clock i) = false) as -> by (apply Z.ltb_ge; lia).
      cbn [andb]. cbn zeta.
      destruct (List.length ch <? recordingChCap)%nat eqn:Hroom.
      * apply Nat.ltb_lt in Hroom. rewrite IH.
        2:{ rewrite length_app. cbn [List.length]. lia. }
        cbn zeta. rewrite length_app. cbn [List.length].
        replace (List.length ch + 1 +
                 List.length (futureRows ParseInLocation clock (S i) rows))%nat
          with (List.length ch +
                S (List.length (futureRows ParseInLocation clock (S i) rows)))%nat
          by lia.
        destruct (_ <=? recordingChCap)%nat.
        -- rewrite <- app_assoc. reflexivity.
        -- rewrite <- app_assoc. cbn [app].
           replace (recordingChCap - List.length ch)%nat
             with (S (recordingChCap - (List.length ch + 1)))%nat by lia.
           reflexivity.
      * apply Nat.ltb_ge in Hroom.
        assert (List.length ch = recordingChCap) as Hfull by lia.
        cbn [List.length].
        assert ((List.length ch +
                 S (List.length (futureRows ParseInLocation clock (S i) rows))
                 <=? recordingChCap)%nat = false) as ->
          by (apply Nat.leb_gt; lia).
        rewrite Hfull, Nat.sub_diag. cbn [firstn]. rewrite app_nil_r.
        reflexivity.
    + destruct ((t <? clock i) && (clock i <? Add t (wrap64 (Duration r * Minute))));
        apply IH, Hch.
Qed.

End StartupFacts.

(** X21.  The startup pass of a new process sends the pending jobs whose
    start still lies ahead on [recordingCh], in table order, and returns
    when there are at most 100 of them; with more, it stays blocked on the
    send of the 101st, the scheduler and the server are never started. *)
Theorem startup_pass_blocks_beyond_a_hundred_future_jobs
    (ParseInLocation : string -> option Z) (clock : nat -> Z) (d : DB) :
  let F := futureRows ParseInLocation clock 0 (selectPending d) in
  loadRecordings ParseInLocation clock (mkState d [] [])
  = if (List.length F <=? 100)%nat then Returned F
    else Blocked (firstn 100 F).
Proof.
  intros F. unfold loadRecordings. cbn [db recordingCh].
  rewrite loadLoop_future by (cbn; lia). reflexivity.
Qed.

(** ** From the request to the file *)

(** X22.  The path of a job through the program: a valid create request
    stores the job; a tick inside the minute after its start hands it to a
    worker; the worker, on a clean exit of the capture, marks it
    'completed'; and a fetch by the id of the create then serves whole the
    file that is at the path the worker wrote to. *)
Theorem scheduled_job_is_captured_and_served
    (ParseInLocation : string -> option Z)
    (Join : string -> string -> string) (Base : string -> string)
    (req : Req.RecordingRequest) (s : State) (c : Channel) (t now : Z)
    (w w' : World) (content : list Byte.byte) :
  0 < Req.Duration req ->
  findChannel (db s) (Req.ChannelID req) = Some c ->
  nextID (db s) < 2 ^ 63 ->
  ParseInLocation (Req.Date req ++ " " ++ Req.StartTime req) = Some t ->
  Window.open t now ->
  MkdirAll w (STORAGE_DIR w) = true ->
  Create w (logFile Join (newRow req (db s))) = true ->
  ffmpeg w (ffmpegArgs Join w (newRow req (db s)) c) = CleanExit ->
  STORAGE_DIR w' = STORAGE_DIR w ->
  Stat w' (outputFile Join w (newRow req (db s)) c) = Regular content ->
  let row := newRow req (db s) in
  let s1 := fst (createRecording "POST" (Some req) s) in
  let s2 := tick ParseInLocation now s1 in
  let d3 := fst (startRecording Join w row (db s2)) in
  status (snd (createRecording "POST" (Some req) s)) = 201 /\
  In row (workers s2) /\
  statusOf d3 (ID row) = Some "completed" /\
  getRecordingFile Join Base w' d3 (FormatInt (ID row)) ""
  = serveFull Base (outputFile Join w row c) content.
Proof.
  intros Hd Hc Hid Hparse Hopen Hmk Hlog Hrun Hdir Hstat row s1 s2 d3.
  assert (channelExists (db s) (Req.ChannelID req) = true) as Hex.
  { apply channelExists_findChannel. congruence. }
  assert (db s1
          = mkDB (channels (db s)) (recordings (db s) ++ [row]) (nextID (db s)))
    as Hs1.
  { unfold s1, createRecording. cbn [String.eqb Ascii.eqb Bool.eqb negb].
    apply Z.leb_gt in Hd. rewrite Hd, Hex. reflexivity. }
  assert (findRecording (db s1) (ID row) = Some row) as Hrow.
  { rewrite Hs1. unfold findRecording. cbn [recordings].
    pose proof (nextID_fresh (db s)) as Hf. unfold findRecording in Hf.
    rewrite (find_app_none _ _ _ Hf). cbn [find row newRow ID].
    rewrite Z.eqb_refl. reflexivity. }
  assert (findChannel (db s1) (ChannelID row) = Some c) as Hc1.
  { rewrite Hs1. exact Hc. }
  split.
  { unfold createRecording. cbn [String.eqb Ascii.eqb Bool.eqb negb].
    apply Z.leb_gt in Hd. rewrite Hd, Hex. reflexivity. }
  split.
  { unfold s2, tick. cbn [workers]. apply in_or_app. right.
    apply dispatch_In. split.
    - apply selectPending_In. split; [|reflexivity].
      rewrite Hs1. cbn [recordings]. apply in_or_app. right. left. reflexivity.
    - exists t. split; [exact Hparse|exact Hopen]. }
  assert (d3 = updateCompleted (db s1) (ID row)) as Hd3.
  { unfold d3, s2, tick, startRecording. cbn [db].
    rewrite Hc1, Hmk. fold row in Hlog, Hrun. rewrite Hlog. cbn [negb].
    rewrite Hrun. reflexivity. }
  pose proof (findRecording_updateCompleted (db s1) row Hrow) as Hdone.
  rewrite <- Hd3 in Hdone.
  split.
  { unfold statusOf. rewrite Hdone. reflexivity. }
  assert (0 <= ID row < 2 ^ 63) as Hrange.
  { pose proof (maxID_nonneg (recordings (db s))).
    cbn [row newRow ID]. unfold nextID in *. lia. }
  destruct (ParseInt_FormatInt (ID row) Hrange) as [Hatoi _].
  assert (findChannel d3 (ChannelID (setStatus "completed" row)) = Some c)
    as Hc3.
  { rewrite Hd3. exact Hc1. }
  assert (filePath Join w' (setStatus "completed" row) (GuideName c)
          = outputFile Join w row c) as Hpath.
  { unfold filePath, outputFile. rewrite Hdir.
    rewrite (findChannel_key _ _ _ Hc1). reflexivity. }
  rewrite (fetch_completed Join Base w' d3 (FormatInt (ID row)) "" (ID row)
             (setStatus "completed" row) c content Hatoi Hdone eq_refl Hc3).
  - rewrite Hpath. reflexivity.
  - rewrite Hpath. exact Hstat.
Qed.

Lemma scheduled_job_is_captured_and_served_witness :
  let s := mkState (mkDB [channel5] [] 0) [] [] in
  let w := world CleanExit NotExist in
  let w' := world CleanExit (Regular file10) in
  let row := newRow request1 (db s) in
  let s1 := fst (createRecording "POST" (Some request1) s) in
  let s2 := tick parseUTC (t0 + 30 * second) s1 in
  let d3 := fst (startRecording joinPlain w row (db s2)) in
  status (snd (createRecording "POST" (Some request1) s)) = 201 /\
  In row (workers s2) /\
  statusOf d3 (ID row) = Some "completed" /\
  getRecordingFile joinPlain basePlain w' d3 (FormatInt (ID row)) ""
  = serveFull basePlain (outputFile joinPlain w row channel5) file10.
Proof.
  apply (scheduled_job_is_captured_and_served parseUTC joinPlain basePlain
           request1 (mkState (mkDB [channel5] [] 0) [] []) channel5 t0
           (t0 + 30 * second) (world CleanExit NotExist)
           (world CleanExit (Regular file10)) file10).
  - reflexivity.
  - reflexivity.
  - reflexivity.
  - reflexivity.
  - unfold Window.open. vm_compute. split; reflexivity.
  - reflexivity.
  - reflexivity.
  - reflexivity.
  - reflexivity.
  - reflexivity.
Defined.



(** A duration of 2^63/60 minutes, rounded up, is passed to the capture as a
    negative number of seconds. *)
Example long_duration_wraps :
  nth 3 (ffmpegArgs joinPlain (world CleanExit NotExist)
           (mkRecording 1 "5" "2026-01-01" "19:00" 153722867280912931
                        "pending") channel5) ""
  = "-9223372036854775756".
Proof. reflexivity. Qed.

(** ** The configuration file *)

Section ConfigFacts.

Import Config.

Ltac step_field f :=
  let c := fresh "c" in
  intros c; unfold f; destruct c;
  cbn [Timezone LineUpID Days GuideFile StateFile StorageDir];
  match goal with |- context [if ?b then _ else _] => destruct b end;
  repeat split; reflexivity.

(** Each default leaves the other five fields as they are. *)
Lemma defaultTimezone_others :
  forall c, LineUpID (defaultTimezone c) = LineUpID c /\
            Days (defaultTimezone c) = Days c /\
            GuideFile (defaultTimezone c) = GuideFile c /\
            StateFile (defaultTimezone c) = StateFile c /\
            StorageDir (defaultTimezone c) = StorageDir c.
Proof. step_field defaultTimezone. Qed.

Lemma defaultDays_others :
  forall c, Timezone (defaultDays c) = Timezone c /\
            LineUpID (defaultDays c) = LineUpID c /\
            GuideFile (defaultDays c) = GuideFile c /\
            StateFile (defaultDays c) = StateFile c /\
            StorageDir (defaultDays c) = StorageDir c.
Proof. step_field defaultDays. Qed.

Lemma defaultGuideFile_others :
  forall c, Timezone (defaultGuideFile c) = Timezone c /\
            LineUpID (defaultGuideFile c) = LineUpID c /\
            Days (defaultGuideFile c) = Days c /\
            StateFile (defaultGuideFile c) = StateFile c /\
            StorageDir (defaultGuideFile c) = StorageDir c.
Proof. step_field defaultGuideFile. Qed.

Lemma defaultStateFile_others :
  forall c, Timezone (defaultStateFile c) = Timezone c /\
            LineUpID (defaultStateFile c) = LineUpID c /\
            Days (defaultStateFile c) = Days c /\
            GuideFile (defaultStateFile c) = GuideFile c /\
            StorageDir (defaultStateFile c) = StorageDir c.
Proof. step_field defaultStateFile. Qed.

(** Each default sets its own field when it is missing, and only then. *)
Lemma defaultTimezone_own (c : Config) :
  Timezone (defaultTimezone c) <> "" /\
  (Timezone c <> "" -> defaultTimezone c = c).
Proof.
  unfold defaultTimezone. destruct (String.eqb (Timezone c) "") eqn:H.
  - apply String.eqb_eq in H. split; [discriminate|congruence].
  - apply String.eqb_neq in H. split; [exact H|reflexivity].
Qed.

Lemma defaultDays_own (c : Config) :
  Days (defaultDays c) <> 0 /\ Days (defaultDays c) <= 8 /\
  (Days c <> 0 -> Days c <= 8 -> defaultDays c = c).
Proof.
  unfold defaultDays. destruct ((Days c =? 0) || (8 <? Days c)) eqn:H.
  - cbn [Days]. split; [discriminate|]. split; [discriminate|].
    intros H0 H8. apply orb_true_iff in H as [H | H];
      [apply Z.eqb_eq in H | apply Z.ltb_lt in H]; lia.
  - apply orb_false_iff in H as [H0 H8].
    apply Z.eqb_neq in H0. apply Z.ltb_ge in H8. auto.
Qed.

Lemma defaultGuideFile_own (c : Config) :
  GuideFile (defaultGuideFile c) <> "" /\
  (GuideFile c <> "" -> defaultGuideFile c = c).
Proof.
  unfold defaultGuideFile. destruct (String.eqb (GuideFile c) "") eqn:H.
  - apply String.eqb_eq in H. split; [discriminate|congruence].
  - apply String.eqb_neq in H. split; [exact H|reflexivity].
Qed.

Lemma defaultStateFile_own (c : Config) :
  StateFile (defaultStateFile c) <> "" /\
  (StateFile c <> "" -> defaultStateFile c = c).
Proof.
  unfold defaultStateFile. destruct (String.eqb (StateFile c) "") eqn:H.
  - apply String.eqb_eq in H. split; [discriminate|congruence].
  - apply String.eqb_neq in H. split; [exact H|reflexivity].
Qed.

Lemma defaultDays_value (c : Config) :
  Days (defaultDays c)
  = if (Days c =? 0) || (8 <? Days c) then 8 else Days c.
Proof.
  unfold defaultDays. destruct ((Days c =? 0) || (8 <? Days c)); reflexivity.
Qed.

Lemma defaultGuideFile_value (c : Config) :
  GuideFile (defaultGuideFile c)
  = if String.eqb (GuideFile c) "" then "guide.json" else GuideFile c.
Proof.
  unfold defaultGuideFile. destruct (String.eqb (GuideFile c) "");
    reflexivity.
Qed.

Lemma defaultStateFile_value (c : Config) :
  StateFile (defaultStateFile c)
  = if String.eqb (StateFile c) "" then "guide_state.json" else StateFile c.
Proof.
  unfold defaultStateFile. destruct (String.eqb (StateFile c) "");
    reflexivity.
Qed.

(** The fields of a configuration after the defaults. *)
Lemma withDefaults_fields (cfg : Config) :
  Timezone (withDefaults cfg) = Timezone (defaultTimezone cfg) /\
  LineUpID (withDefaults cfg) = LineUpID cfg /\
  Days (withDefaults cfg) = Days (defaultDays cfg) /\
  GuideFile (withDefaults cfg) = GuideFile (defaultGuideFile cfg) /\
  StateFile (withDefaults cfg) = StateFile (defaultStateFile cfg) /\
  StorageDir (withDefaults cfg) = StorageDir cfg.
Proof.
  unfold withDefaults.
  set (c1 := defaultTimezone cfg). set (c2 := defaultDays c1).
  set (c3 := defaultGuideFile c2).
  destruct (defaultTimezone_others cfg) as (A1 & A2 & A3 & A4 & A5).
  destruct (defaultDays_others c1) as (B1 & B2 & B3 & B4 & B5).
  destruct (defaultGuideFile_others c2) as (C1 & C2 & C3 & C4 & C5).
  destruct (defaultStateFile_others c3) as (D1 & D2 & D3 & D4 & D5).
  fold c1 in A1, A2, A3, A4, A5. fold c2 in B1, B2, B3, B4, B5.
  fold c3 in C1, C2, C3, C4, C5.
  repeat split.
  - congruence.
  - congruence.
  - rewrite D3, C3. unfold c2. rewrite !defaultDays_value, A2. reflexivity.
  - rewrite D4. unfold c3. rewrite !defaultGuideFile_value, B3, A3.
    reflexivity.
  - rewrite !defaultStateFile_value, C4, B4, A4. reflexivity.
  - congruence.
Qed.

Lemma config_eta (a b : Config) :
  Timezone a = Timezone b -> LineUpID a = LineUpID b -> Days a = Days b ->
  GuideFile a = GuideFile b -> StateFile a = StateFile b ->
  StorageDir a = StorageDir b -> a = b.
Proof. destruct a, b; cbn; intros; subst; reflexivity. Qed.

End ConfigFacts.

(** X24.  A configuration that [LoadConfig] returns can be used as it is:
    the storage directory, the timezone and the two file names are not
    empty, and the number of days is not zero and not above 8.  It may be
    negative: a negative number of days in the file is kept. *)
Theorem loaded_config_has_usable_fields
    (Unmarshal : list Byte.byte -> option Config.Config)
    (file : option (list Byte.byte)) (c : Config.Config) :
  Config.LoadConfig Unmarshal file = Config.Loaded c ->
  Config.StorageDir c <> "" /\ Config.Timezone c <> "" /\
  Config.GuideFile c <> "" /\ Config.StateFile c <> "" /\
  Config.Days c <> 0 /\ Config.Days c <= 8.
Proof.
  unfold Config.LoadConfig.
  destruct file as [data|]; [|discriminate].
  destruct (Unmarshal data) as [cfg|]; [|discriminate].
  destruct (String.eqb (Config.StorageDir cfg) "") eqn:Hdir; [discriminate|].
  intros H. injection H as <-. apply String.eqb_neq in Hdir.
  destruct (withDefaults_fields cfg) as (H1 & _ & H3 & H4 & H5 & H6).
  rewrite H1, H3, H4, H5, H6.
  destruct (defaultTimezone_own cfg) as [T _].
  destruct (defaultDays_own cfg) as (D0 & D8 & _).
  destruct (defaultGuideFile_own cfg) as [G _].
  destruct (defaultStateFile_own cfg) as [S _].
  repeat split; assumption.
Qed.

Lemma loaded_config_has_usable_fields_witness :
  let c := Config.mk "America/Los_Angeles" "USA-123" 8 "guide.json"
                     "guide_state.json" "/data" in
  Config.StorageDir c <> "" /\ Config.Timezone c <> "" /\
  Config.GuideFile c <> "" /\ Config.StateFile c <> "" /\
  Config.Days c <> 0 /\ Config.Days c <= 8.
Proof.
  apply (loaded_config_has_usable_fields
           (fun _ => Some (Config.mk "" "USA-123" 0 "" "" "/data"))
           (Some [])).
  reflexivity.
Defined.

(** X25.  The defaults of [LoadConfig] fill in only what is missing: the
    lineup id and the storage directory are never touched, a timezone or a
    file name that is given is kept, and so is a number of days that is not
    zero and not above 8; applying the defaults to their own result changes
    nothing. *)
Theorem config_defaults_keep_what_is_set (cfg : Config.Config) :
  let c := Config.withDefaults cfg in
  Config.LineUpID c = Config.LineUpID cfg /\
  Config.StorageDir c = Config.StorageDir cfg /\
  (Config.Timezone cfg <> "" -> Config.Timezone c = Config.Timezone cfg) /\
  (Config.Days cfg <> 0 -> Config.Days cfg <= 8 ->
   Config.Days c = Config.Days cfg) /\
  (Config.GuideFile cfg <> "" -> Config.GuideFile c = Config.GuideFile cfg) /\
  (Config.StateFile cfg <> "" -> Config.StateFile c = Config.StateFile cfg) /\
  Config.withDefaults c = c.
Proof.
  intros c.
  destruct (withDefaults_fields cfg) as (H1 & H2 & H3 & H4 & H5 & H6).
  fold c in H1, H2, H3, H4, H5, H6.
  destruct (defaultTimezone_own cfg) as [T Tk].
  destruct (defaultDays_own cfg) as (D0 & D8 & Dk).
  destruct (defaultGuideFile_own cfg) as [G Gk].
  destruct (defaultStateFile_own cfg) as [S Sk].
  split; [exact H2|]. split; [exact H6|].
  split; [intros H; rewrite H1, (Tk H); reflexivity|].
  split; [intros Ha Hb; rewrite H3, (Dk Ha Hb); reflexivity|].
  split; [intros H; rewrite H4, (Gk H); reflexivity|].
  split; [intros H; rewrite H5, (Sk H); reflexivity|].
  unfold Config.withDefaults at 1.
  destruct (defaultTimezone_own c) as [_ Tc].
  destruct (defaultDays_own c) as (_ & _ & Dc).
  destruct (defaultGuideFile_own c) as [_ Gc].
  destruct (defaultStateFile_own c) as [_ Sc].
  rewrite Tc by (rewrite H1; exact T).
  rewrite Dc by (rewrite H3; assumption).
  rewrite Gc by (rewrite H4; exact G).
  apply Sc. rewrite H5. exact S.
Qed.

(** ** The status read from the disk *)

Section NameFacts.

Lemma append_cancel_l (a x y : string) :
  (a ++ x)%string = (a ++ y)%string -> x = y.
Proof.
  induction a as [|c a IH]; cbn [append]; [auto|].
  intros H. injection H as H. auto.
Qed.

Lemma append_cancel_r (s : string) :
  forall x y, (x ++ s)%string = (y ++ s)%string -> x = y.
Proof.
  induction x as [|c x IH]; intros y H.
  - destruct y as [|d y]; [reflexivity|]. exfalso.
    apply (f_equal String.length) in H. rewrite !length_append in H.
    cbn [String.length] in H. lia.
  - destruct y as [|d y].
    + exfalso. apply (f_equal String.length) in H.
      rewrite !length_append in H. cbn [String.length] in H. lia.
    + cbn [append] in H. injection H as -> H. f_equal. auto.
Qed.

End NameFacts.

(** X26.  The file name of [pkg/types] is not the file name of the capture
    worker: for the same job and channel the two agree exactly when the job
    has a title and the title is the channel's name, a dash, and the channel
    id.  For a job without a title they never agree, so [CheckStatus] does
    not find the file the worker of [app.go] wrote. *)
Theorem types_file_name_is_not_the_worker_file_name
    (r : Types.Recording) (channelName : string) :
  Types.GetFilePath r
  = fileName (Types.Date r) (Types.StartTime r) channelName (Types.ChannelID r)
  <-> Types.Title r = Some (channelName ++ "-" ++ Types.ChannelID r).
Proof.
  unfold Types.GetFilePath, fileName.
  set (prefix := (Types.Date r ++ "-" ++ Types.StartTime r ++ "-")%string).
  assert (forall x, (Types.Date r ++ "-" ++ Types.StartTime r ++ "-" ++ x)%string
                    = (prefix ++ x)%string) as Hpre.
  { intros x. unfold prefix. rewrite !append_assoc. reflexivity. }
  rewrite !Hpre.
  replace (channelName ++ "-" ++ Types.ChannelID r ++ ".mp4")%string
    with ((channelName ++ "-" ++ Types.ChannelID r) ++ ".mp4")%string
    by (rewrite !append_assoc; reflexivity).
  destruct (Types.Title r) as [title|].
  - split.
    + intros H. apply append_cancel_l, append_cancel_r in H. congruence.
    + intros H. injection H as ->. reflexivity.
  - split; [|discriminate]. intros H. exfalso.
    apply append_cancel_l, append_cancel_r in H.
    apply (f_equal String.length) in H. rewrite !length_append in H.
    cbn [String.length] in H. lia.
Qed.

(** X27.  [CheckStatus] answers from the disk, not from the stored status:
    it says 'completed' exactly when the channel is known and the file can
    be read with [os.Stat], whatever the stored status; 'pending' exactly
    when the channel is known, the file does not exist, the start parses,
    and the job is not a 'pending' one whose window has passed; and 'failed'
    in every other case. *)
Theorem check_status_reads_the_disk
    (ParseInLocation : string -> option Z) (Join : string -> string -> string)
    (d : DB) (stat : string -> FileState) (now : Z) (storageDir : string)
    (r : Types.Recording) :
  let st := Types.CheckStatus ParseInLocation Join d stat now storageDir r in
  let found := stat (Join storageDir (Types.GetFilePath r)) in
  (st = "completed" \/ st = "pending" \/ st = "failed") /\
  (st = "completed" <->
   findChannel d (Types.ChannelID r) <> None /\
   found <> NotExist /\ found <> StatError) /\
  (st = "pending" <->
   findChannel d (Types.ChannelID r) <> None /\
   found = NotExist /\
   exists startTime,
     ParseInLocation (Types.Date r ++ " " ++ Types.StartTime r)
     = Some startTime /\
     ~ (startTime + wrap64 (Types.Duration r * Minute) < now /\
        Types.Status r = "pending")).
Proof.
  intros st found. unfold st, found, Types.CheckStatus. clear st found.
  destruct (findChannel d (Types.ChannelID r)) as [c|].
  2:{ split; [auto|]. split; (split; [discriminate|intros [H _]; contradiction]). }
  destruct (stat (Join storageDir (Types.GetFilePath r))) as [| | |content].
  - destruct (ParseInLocation (Types.Date r ++ " " ++ Types.StartTime r))
      as [t|].
    + unfold After, Add.
      destruct (t + wrap64 (Types.Duration r * Minute) <? now) eqn:Hlt;
        [apply Z.ltb_lt in Hlt | apply Z.ltb_ge in Hlt];
        (destruct (String.eqb (Types.Status r) "pending") eqn:Hp;
         [apply String.eqb_eq in Hp | apply (proj1 (String.eqb_neq _ _)) in Hp]);
        cbn [andb]; (split; [auto|]);
        (split; [split; [discriminate|intros (_ & H & _); contradiction]|]).
      * split; [discriminate|].
        intros (_ & _ & t' & Ht' & Hno). injection Ht' as <-. exfalso. auto.
      * split; [intros _|reflexivity]. split; [discriminate|].
        split; [reflexivity|]. exists t. split; [reflexivity|].
        intros [_ H2]. contradiction.
      * split; [intros _|reflexivity]. split; [discriminate|].
        split; [reflexivity|]. exists t. split; [reflexivity|].
        intros [H1 _]. lia.
      * split; [intros _|reflexivity]. split; [discriminate|].
        split; [reflexivity|]. exists t. split; [reflexivity|].
        intros [H1 _]. lia.
    + split; [auto|]. split.
      * split; [discriminate|intros (_ & H & _); contradiction].
      * split; [discriminate|]. intros (_ & _ & t & Ht & _). discriminate Ht.
  - split; [auto|]. split.
    + split; [discriminate|intros (_ & _ & H); contradiction].
    + split; [discriminate|]. intros (_ & H & _). discriminate H.
  - split; [auto|]. split.
    + split; [|reflexivity]. intros _. repeat split; discriminate.
    + split; [discriminate|]. intros (_ & H & _). discriminate H.
  - split; [auto|]. split.
    + split; [|reflexivity]. intros _. repeat split; discriminate.
    + split; [discriminate|]. intros (_ & H & _). discriminate H.
Qed.

(** A job that is stored as 'completed' and whose file is gone is reported
    'pending'; a 'pending' job one hour after its start, without a file, is
    reported 'failed'. *)
Example check_status_samples :
  Types.CheckStatus parseUTC joinPlain db1 (fun _ => NotExist)
    (t0 + 3600 * second) "/data"
    (Types.mk 1 "5" "2026-01-01" "19:00" 30 "completed" None) = "pending" /\
  Types.CheckStatus parseUTC joinPlain db1 (fun _ => NotExist)
    (t0 + 3600 * second) "/data"
    (Types.mk 1 "5" "2026-01-01" "19:00" 30 "pending" None) = "failed" /\
  Types.CheckStatus parseUTC joinPlain db1 (fun _ => Regular [])
    t0 "/data"
    (Types.mk 1 "5" "2026-01-01" "19:00" 30 "pending" None) = "completed".
Proof. repeat split; reflexivity. Qed.

(** ** The guide *)

Section GuideFacts.

Import OrderedTypeEx.

Lemma ltb_lts (a b : string) :
  String.ltb a b = true <-> String_as_OT.lt a b.
Proof.
  rewrite <- String_as_OT.cmp_lt. unfold String.ltb, String_as_OT.cmp.
  destruct (String.compare a b); split; congruence.
Qed.

Lemma ltb_false_cases (a b : string) :
  String.ltb a b = false <-> a = b \/ String_as_OT.lt b a.
Proof.
  rewrite <- String_as_OT.cmp_lt, <- String_as_OT.cmp_eq.
  unfold String.ltb, String_as_OT.cmp. rewrite (String.compare_antisym b a).
  destruct (String.compare a b); cbn [CompOpp];
    split; try congruence; try tauto; intros [H | H]; congruence.
Qed.

Lemma lts_irrefl (a : string) : ~ String_as_OT.lt a a.
Proof. intros H. exact (String_as_OT.lt_not_eq _ _ H eq_refl). Qed.

(** [ordered a b]: [a] is not after [b], by start and then by channel. *)
Lemma ordered_iff (a b : Guide.Program) :
  Guide.ordered a b <->
  String_as_OT.lt (Guide.Start a) (Guide.Start b) \/
  (Guide.Start a = Guide.Start b /\
   (Guide.Channel a = Guide.Channel b \/
    String_as_OT.lt (Guide.Channel a) (Guide.Channel b))).
Proof.
  unfold Guide.ordered, Guide.less.
  destruct (String.eqb (Guide.Start b) (Guide.Start a)) eqn:He.
  - apply String.eqb_eq in He. rewrite ltb_false_cases. split.
    + intros [H | H]; right; split; auto.
    + intros [H | [_ [H | H]]]; auto.
      rewrite He in H. destruct (lts_irrefl _ H).
  - apply String.eqb_neq in He. rewrite ltb_false_cases. split.
    + intros [H | H]; [congruence|left; exact H].
    + intros [H | [H _]]; [right; exact H|congruence].
Qed.

Lemma ordered_trans (a b c : Guide.Program) :
  Guide.ordered a b -> Guide.ordered b c -> Guide.ordered a c.
Proof.
  rewrite !ordered_iff.
  intros [H1 | [E1 H1]] [H2 | [E2 H2]].
  - left. eapply String_as_OT.lt_trans; eassumption.
  - left. rewrite <- E2. exact H1.
  - left. rewrite E1. exact H2.
  - right. split; [congruence|].
    destruct H1 as [H1 | H1], H2 as [H2 | H2].
    + left. congruence.
    + right. rewrite H1. exact H2.
    + right. rewrite <- H2. exact H1.
    + right. eapply String_as_OT.lt_trans; eassumption.
Qed.

Lemma less_ordered (a b : Guide.Program) :
  Guide.less a b = true -> Guide.ordered a b.
Proof.
  intros H. apply ordered_iff. unfold Guide.less in H.
  destruct (String.eqb (Guide.Start a) (Guide.Start b)) eqn:He.
  - apply String.eqb_eq in He. apply ltb_lts in H. right. auto.
  - apply ltb_lts in H. left. exact H.
Qed.

Lemma insertProgram_perm (p : Guide.Program) (l : list Guide.Program) :
  Permutation (Guide.insertProgram p l) (p :: l).
Proof.
  induction l as [|x l IH]; cbn [Guide.insertProgram]; [reflexivity|].
  destruct (Guide.less x p); [|reflexivity].
  rewrite IH. apply perm_swap.
Qed.

Lemma sortPrograms_perm (l : list Guide.Program) :
  Permutation (Guide.sortPrograms l) l.
Proof.
  induction l as [|p l IH]; cbn [Guide.sortPrograms fold_right]; [reflexivity|].
  fold (Guide.sortPrograms l). rewrite insertProgram_perm, IH. reflexivity.
Qed.

Lemma insertProgram_sorted (p : Guide.Program) (l : list Guide.Program) :
  StronglySorted Guide.ordered l ->
  StronglySorted Guide.ordered (Guide.insertProgram p l).
Proof.
  induction l as [|x l IH]; cbn [Guide.insertProgram]; intros Hs.
  - repeat constructor.
  - inversion Hs as [|y ys Hsl Hall]; subst.
    destruct (Guide.less x p) eqn:Hlt.
    + constructor; [apply IH, Hsl|].
      apply Forall_forall. intros z Hz.
      apply (Permutation_in _ (insertProgram_perm p l)) in Hz.
      destruct Hz as [<- | Hz]; [apply less_ordered, Hlt|].
      rewrite Forall_forall in Hall. auto.
    + constructor; [exact Hs|]. constructor; [exact Hlt|].
      eapply Forall_impl; [|exact Hall]. intros z Hz.
      eapply ordered_trans; [exact Hlt|exact Hz].
Qed.

Lemma sortPrograms_sorted (l : list Guide.Program) :
  StronglySorted Guide.ordered (Guide.sortPrograms l).
Proof.
  induction l as [|p l IH]; cbn [Guide.sortPrograms fold_right]; [constructor|].
  apply insertProgram_sorted, IH.
Qed.

Lemma uniqueLoop_In (l : list Guide.Program) :
  forall seen p, In p (Guide.uniqueLoop seen l) -> In p l.
Proof.
  induction l as [|x l IH]; intros seen p; cbn [Guide.uniqueLoop]; [auto|].
  destruct (existsb _ seen).
  - intros H. right. eauto.
  - intros [<- | H]; [left; reflexivity|right; eauto].
Qed.

Lemma uniqueLoop_sorted (l : list Guide.Program) :
  forall seen, StronglySorted Guide.ordered l ->
               StronglySorted Guide.ordered (Guide.uniqueLoop seen l).
Proof.
  induction l as [|x l IH]; intros seen Hs; cbn [Guide.uniqueLoop];
    [constructor|].
  inversion Hs as [|y ys Hsl Hall]; subst.
  destruct (existsb _ seen); [auto|].
  constructor; [auto|]. apply Forall_forall. intros z Hz.
  apply uniqueLoop_In in Hz. rewrite Forall_forall in Hall. auto.
Qed.

Lemma seen_iff (k : string) (seen : list string) :
  existsb (String.eqb k) seen = true <-> In k seen.
Proof.
  rewrite existsb_exists. split.
  - intros (x & Hin & Hx). apply String.eqb_eq in Hx. congruence.
  - intros H. exists k. split; [exact H|apply String.eqb_refl].
Qed.

Lemma uniqueLoop_keys (l : list Guide.Program) :
  forall seen,
    NoDup (map Guide.key (Guide.uniqueLoop seen l)) /\
    (forall p, In p (Guide.uniqueLoop seen l) -> ~ In (Guide.key p) seen) /\
    (forall p, In p l ->
               In (Guide.key p) seen \/
               In (Guide.key p) (map Guide.key (Guide.uniqueLoop seen l))).
Proof.
  induction l as [|x l IH]; intros seen; cbn [Guide.uniqueLoop].
  - split; [constructor|]. split; intros p [].
  - destruct (existsb (String.eqb (Guide.key x)) seen) eqn:Hseen.
    + destruct (IH seen) as (H1 & H2 & H3). split; [exact H1|].
      split; [exact H2|]. intros p [<- | Hp]; [|auto].
      left. apply seen_iff, Hseen.
    + destruct (IH (Guide.key x :: seen)) as (H1 & H2 & H3).
      split; [|split].
      * cbn [map]. constructor; [|exact H1]. intros Hin.
        apply in_map_iff in Hin as (q & Hq & Hqin).
        apply (H2 q Hqin). left. congruence.
      * intros p [<- | Hp].
        -- intros Hin. apply seen_iff in Hin. congruence.
        -- intros Hin. apply (H2 p Hp). right. exact Hin.
      * intros p [<- | Hp]; [right; left; reflexivity|].
        destruct (H3 p Hp) as [[Hk | Hk] | Hk].
        -- right. left. exact Hk.
        -- left. exact Hk.
        -- right. right. exact Hk.
Qed.

End GuideFacts.

(** X28.  The programs the guide keeps after sorting and removing
    duplicates: they are in order of start and then channel, no two of them
    have the same key [start-channel], each of them is one of the programs
    given, and every program given has its key among them. *)
Theorem guide_programs_are_sorted_and_unique (allPrograms : list Guide.Program) :
  let kept := Guide.uniquePrograms allPrograms in
  StronglySorted Guide.ordered kept /\
  NoDup (map Guide.key kept) /\
  (forall p, In p kept -> In p allPrograms) /\
  (forall p, In p allPrograms -> In (Guide.key p) (map Guide.key kept)).
Proof.
  intros kept. unfold kept, Guide.uniquePrograms.
  destruct (uniqueLoop_keys (Guide.sortPrograms allPrograms) [])
    as (H1 & _ & H3).
  split; [apply uniqueLoop_sorted, sortPrograms_sorted|].
  split; [exact H1|]. split.
  - intros p Hp. apply uniqueLoop_In in Hp.
    eapply Permutation_in; [apply sortPrograms_perm|exact Hp].
  - intros p Hp.
    destruct (H3 p) as [[] | H]; [|exact H].
    eapply Permutation_in; [symmetry; apply sortPrograms_perm|exact Hp].
Qed.

(** X29.  Two programs whose start strings have the same length, as two
    formatted times have, share a key exactly when they have the same start
    and the same channel. *)
Theorem guide_key_tells_programs_apart (p q : Guide.Program) :
  String.length (Guide.Start p) = String.length (Guide.Start q) ->
  (Guide.key p = Guide.key q <->
   Guide.Start p = Guide.Start q /\ Guide.Channel p = Guide.Channel q).
Proof.
  intros Hlen. unfold Guide.key. split.
  - generalize dependent (Guide.Start q).
    induction (Guide.Start p) as [|c s IH]; intros s' Hlen H.
    + destruct s' as [|c' s']; [|discriminate Hlen].
      cbn [append] in H. injection H as H. auto.
    + destruct s' as [|c' s']; [discriminate Hlen|].
      cbn [append] in H. injection H as -> H. cbn [String.length] in Hlen.
      destruct (IH s' ltac:(lia) H) as [-> ->]. auto.
  - intros [-> ->]. reflexivity.
Qed.

Lemma guide_key_tells_programs_apart_witness :
  let p := Guide.mk "5" "News" "" "2026-01-01T19:00:00-08:00" "" 30 "" "" ""
                    false in
  let q := Guide.mk "5" "Late news" "" "2026-01-01T19:00:00-08:00" "" 60 "" ""
                    "" true in
  Guide.key p = Guide.key q <->
  Guide.Start p = Guide.Start q /\ Guide.Channel p = Guide.Channel q.
Proof.
  apply (guide_key_tells_programs_apart
           (Guide.mk "5" "News" "" "2026-01-01T19:00:00-08:00" "" 30 "" "" ""
                     false)
           (Guide.mk "5" "Late news" "" "2026-01-01T19:00:00-08:00" "" 60 ""
                     "" "" true)).
  reflexivity.
Defined.

(** Without the same length a dash in a field makes two programs collide. *)
Example guide_key_collision :
  Guide.key (Guide.mk "1-2" "" "" "a" "" 0 "" "" "" false)
  = Guide.key (Guide.mk "2" "" "" "a-1" "" 0 "" "" "" false).
Proof. reflexivity. Qed.

Section BatchFacts.

Lemma batchLoop_covers (allChannels : list string) :
  forall fuel i,
    (List.length allChannels - i <= fuel)%nat ->
    List.concat (Guide.batchLoop fuel i allChannels) = skipn i allChannels /\
    Forall (fun b => (1 <= List.length b <= 20)%nat)
           (Guide.batchLoop fuel i allChannels).
Proof.
  induction fuel as [|fuel IH]; intros i Hfuel; cbn [Guide.batchLoop].
  - split; [|constructor]. cbn [List.concat]. symmetry. apply skipn_all2. lia.
  - destruct (i <? List.length allChannels)%nat eqn:Hi.
    + apply Nat.ltb_lt in Hi.
      destruct (IH (i + 20)%nat ltac:(lia)) as [Hc Hall].
      assert (firstn
                ((if (List.length allChannels <? i + 20)%nat
                  then List.length allChannels else (i + 20)%nat) - i)
                (skipn i allChannels)
              = firstn 20 (skipn i allChannels)) as Hslice.
      { destruct (List.length allChannels <? i + 20)%nat eqn:He.
        - apply Nat.ltb_lt in He.
          rewrite !firstn_all2; [reflexivity| |]; rewrite length_skipn; lia.
        - f_equal. lia. }
      cbn zeta. rewrite Hslice. split.
      * cbn [List.concat]. rewrite Hc.
        replace (i + 20)%nat with (20 + i)%nat by lia.
        rewrite <- skipn_skipn. apply firstn_skipn.
      * constructor; [|exact Hall].
        rewrite length_firstn, length_skipn. lia.
    + apply Nat.ltb_ge in Hi. split; [|constructor].
      cbn [List.concat]. symmetry. apply skipn_all2. exact Hi.
Qed.

End BatchFacts.

(** X30.  The listings are asked for in batches that, one after the other,
    are exactly the list of channels: every channel is in one batch, in
    order, no batch is empty and none has more than 20 channels. *)
Theorem guide_batches_cover_the_channels (allChannels : list string) :
  List.concat (Guide.batches allChannels) = allChannels /\
  Forall (fun b => (1 <= List.length b <= 20)%nat) (Guide.batches allChannels).
Proof.
  unfold Guide.batches.
  destruct (batchLoop_covers allChannels (List.length allChannels) 0
              ltac:(lia)) as [Hc Hall].
  split; [exact Hc|exact Hall].
Qed.
